(** * CV analyzer: a shallow embedding of [app.py]

    The cycle segmenter, the loader and the two plot composers of the
    cyclic-voltammetry viewer, with the properties its specification
    states about them.  Potentials and currents are IEEE binary64 numbers
    (numpy's float64); the segmenter is given on columns of dtype int64
    as well.  Indices are naturals, Python exceptions are the [Raise]
    results of an error monad, and what the program shows, draws and
    reads is threaded through a state. *)

From Stdlib Require Import String Ascii DecimalString DecimalNat List Sorted ZArith Lia Bool.
From Stdlib Require Import Floats.
Import ListNotations.

Set Warnings "-inexact-float".

Local Open Scope nat_scope.

(** ** Exceptions and fallible results *)

Inductive exn : Type :=
| EmptyDataError
| ParserError
| IndexError
| KeyError
| ValueError (msg : string).

Inductive result (A : Type) : Type :=
| Ok (a : A)
| Raise (e : exn).

Arguments Ok {A} a.
Arguments Raise {A} e.

Definition rbind {A B : Type} (r : result A) (k : A -> result B) : result B :=
  match r with
  | Ok a => k a
  | Raise e => Raise e
  end.

Declare Scope result_scope.
Delimit Scope result_scope with result.
Notation "x <- r ;; k" := (rbind r (fun x => k))
  (at level 61, r at next level, right associativity) : result_scope.
Notation "' pat <- r ;; k" := (rbind r (fun x => match x with pat => k end))
  (at level 61, pat pattern, r at next level, right associativity) : result_scope.

(** A Python [for] loop over a list of indices, threading the loop state;
    an exception raised by the body leaves the loop. *)
Fixpoint for_each {I S : Type} (body : S -> I -> result S) (items : list I) (s : S)
  : result S :=
  match items with
  | [] => Ok s
  | i :: rest => rbind (body s i) (for_each body rest)
  end.

(** [range(a, b)] *)
Definition range (a b : nat) : list nat := seq a (b - a).

(** ** Cycle segmenter *)

(** [a[i]] on a numpy array: out of range raises [IndexError]. *)
Definition getitem (a : list float) (i : nat) : result float :=
  match nth_error a i with
  | Some v => Ok v
  | None => Raise IndexError
  end.

(** A segment is the half-open index range [(start, end)]. *)
Definition segment : Type := (nat * nat)%type.

(** The default of the keyword parameter [tol=1e-3]. *)
Definition tol_default : float := 0.001%float.

(** The test of line 43:
    [abs(potential[i] - v0) < tol and (i - start_idx) > 10], on a column of
    dtype float64, where numpy computes the difference and its absolute
    value in binary64.  (The same line on a column of dtype int64 is
    [returns_to_start_int64] below.) *)
Definition returns_to_start (x v0 tol : float) (i start_idx : nat) : bool :=
  (PrimFloat.ltb (PrimFloat.abs (PrimFloat.sub x v0)) tol)
  && (Z.of_nat i - Z.of_nat start_idx >? 10)%Z.

(** The body of the loop of lines 42-46 on the state
    [(segments, start_idx)]. *)
Definition segment_step (potential : list float) (v0 tol : float)
    (st : list segment * nat) (i : nat) : result (list segment * nat) :=
  let '(segments, start_idx) := st in
  (x <- getitem potential i ;;
   if returns_to_start x v0 tol i start_idx
   then Ok (segments ++ [(start_idx, i)], i)
   else Ok (segments, start_idx))%result.

Definition split_cycles_by_return_to_start (potential : list float) (tol : float)
  : result (list segment) :=
  (v0 <- getitem potential 0 ;;
   ' (segments, start_idx) <-
      for_each (segment_step potential v0 tol)
               (range 1 (length potential)) ([], 0) ;;
   if start_idx <? length potential
   then Ok (segments ++ [(start_idx, length potential)])
   else Ok segments)%result.

(** The segmenter as the specification words it, with its [min_length]
    parameter: scan the points after the first one, closing [(start, i)]
    at each return to the start, and emit the trailing segment. *)
Fixpoint segment_scan (v0 tol : float) (min_length : Z) (rest : list float)
    (i start_idx : nat) : list segment :=
  match rest with
  | [] => if start_idx <? i then [(start_idx, i)] else []
  | x :: rest' =>
      if (PrimFloat.ltb (PrimFloat.abs (PrimFloat.sub x v0)) tol)
         && (Z.of_nat i - Z.of_nat start_idx >? min_length)%Z
      then (start_idx, i) :: segment_scan v0 tol min_length rest' (S i) i
      else segment_scan v0 tol min_length rest' (S i) start_idx
  end.

Definition segment_spec (potential : list float) (tol : float) (min_length : Z)
  : list segment :=
  match potential with
  | [] => []
  | v0 :: rest => segment_scan v0 tol min_length rest 1 0
  end.

(** ** Smoother *)

(** [x[start:end]] for [0 <= start]: the elements at the positions
    [start, ..., end-1] that exist. *)
Definition slice {A : Type} (l : list A) (start stop : nat) : list A :=
  firstn (stop - start) (skipn start l).

Definition float_of_Z (z : Z) : float :=
  match z with
  | Z0 => 0%float
  | Zpos _ => PrimFloat.of_uint63 (Uint63.of_Z z)
  | Zneg p => PrimFloat.opp (PrimFloat.of_uint63 (Uint63.of_Z (Zpos p)))
  end.

(** The weight of the point at offset [k] from the centre of a window of
    [m] points, for a least-squares cubic (or quadratic) fit evaluated at
    the centre: [3 (3 m^2 - 7 - 20 k^2) / (4 m (m^2 - 4))]. *)
Definition savgol_weight (m : nat) (k : Z) : float :=
  let mz := Z.of_nat m in
  PrimFloat.div (float_of_Z (3 * (3 * mz * mz - 7 - 20 * k * k)))
                (float_of_Z (4 * mz * (mz * mz - 4))).

Definition savgol_weights (window_length : nat) : list float :=
  map (fun i => savgol_weight window_length
                  (Z.of_nat i - Z.of_nat (window_length / 2)))
      (seq 0 window_length).

(** Nearest-value padding: [h] copies of the first value before the data
    and [h] copies of the last value after it. *)
Definition pad_nearest (h : nat) (x : list float) : list float :=
  repeat (hd 0%float x) h ++ x ++ repeat (last x 0%float) h.

(** The windows of [w] consecutive values of [l], from left to right. *)
Fixpoint windows (w : nat) (l : list float) : list (list float) :=
  match l with
  | [] => []
  | _ :: tl => if w <=? length l then firstn w l :: windows w tl else []
  end.

Definition dot (ws xs : list float) : float :=
  fold_left (fun acc p => PrimFloat.add acc (PrimFloat.mul (fst p) (snd p)))
            (combine ws xs) 0%float.

(** The smoother's error. *)
Definition window_too_long : exn :=
  ValueError "window_length must be less than or equal to the size of x".

(** Modelled from the spec: [scipy.signal.savgol_filter], which the
    program imports and calls as [savgol_filter(values, 11, 3)], is not
    under src/.  Following section 4.2: a local-polynomial least-squares
    filter with a fixed window, which fails when the input is shorter than
    the window and pads the boundaries with the nearest value.  The
    weights are those of the cubic fit, the only order the program asks
    for. *)
Definition savgol_filter (x : list float) (window_length polyorder : nat)
  : result (list float) :=
  if length x <? window_length
  then Raise window_too_long
  else Ok (map (dot (savgol_weights window_length))
               (windows window_length (pad_nearest (window_length / 2) x))).

(** ** Peak locator *)

Definition is_nan (x : float) : bool := negb (PrimFloat.eqb x x).

(** The values of a column with the missing ones (NaN) replaced. *)
Definition fill_nan (fill : float) (s : list float) : list float :=
  map (fun x => if is_nan x then fill else x) s.

(** The scan for the first extremum: [better x best] decides whether the
    value [x] at index [i] replaces the extremum found so far. *)
Fixpoint arg_scan (better : float -> float -> bool) (l : list float)
    (i best_idx : nat) (best : float) : nat :=
  match l with
  | [] => best_idx
  | x :: rest =>
      if better x best then arg_scan better rest (S i) i x
      else arg_scan better rest (S i) best_idx best
  end.

(** Modelled from the spec: [numpy.argmax] and [numpy.argmin] are not under
    src/; applied to a pandas Series, as on lines 87-88, they are the
    Series' own [argmax] and [argmin].  Following section 4.3: the position
    of the maximum (minimum) over the full sequence, ties resolved to the
    first occurrence.  As in pandas, missing values are passed over (they
    count as minus infinity for the maximum, as plus infinity for the
    minimum), and a sequence that is empty or has no value at all raises
    [ValueError]. *)
Definition np_argmax (s : list float) : result nat :=
  match fill_nan neg_infinity s with
  | [] => Raise (ValueError "attempt to get argmax of an empty sequence")
  | x :: rest =>
      if forallb is_nan s then Raise (ValueError "Encountered all NA values")
      else Ok (arg_scan (fun y best => PrimFloat.ltb best y) rest 1 0 x)
  end.

Definition np_argmin (s : list float) : result nat :=
  match fill_nan infinity s with
  | [] => Raise (ValueError "attempt to get argmin of an empty sequence")
  | x :: rest =>
      if forallb is_nan s then Raise (ValueError "Encountered all NA values")
      else Ok (arg_scan (fun y best => PrimFloat.ltb y best) rest 1 0 x)
  end.

(** Lines 87-88: [(oxidation_index, reduction_index)]. *)
Definition locate_peaks (current : list float) : result (nat * nat) :=
  (ox_idx <- np_argmax current ;;
   red_idx <- np_argmin current ;;
   Ok (ox_idx, red_idx))%result.

(** ** Loader *)

(** What [pandas.read_csv] made of a file, as far as the program looks at
    it: the numeric columns [x] and [y], of dtype float64, and the text
    columns [x_unit] and [y_unit], each present or not; a missing text
    cell (NaN) is [None]. *)
Record DataFrame : Type := {
  col_x : option (list float);
  col_y : option (list float);
  col_x_unit : option (list (option string));
  col_y_unit : option (list (option string))
}.

(** An uploaded file object: its name, its identity, and what
    [pd.read_csv] makes of it at its first read (number 0), at its second
    read, and so on.  Reading consumes the stream of the object, so that a
    later read of the same object need not give what the first one gave;
    what it gives is the matter of pandas and of the object, and is an
    input here. *)
Record UploadedFile : Type := {
  name : string;
  file_id : nat;
  contents : nat -> result DataFrame
}.

Inductive color : Type :=
| Named (c : string)
| Tab10 (k : nat).

(** One [ax.plot] call. *)
Record line : Type := {
  xdata : list float;
  ydata : list float;
  fmt : option string;
  label : string;
  line_color : option color;
  alpha : option float;
  linewidth : option nat
}.

Record figure : Type := {
  fig_lines : list line;
  xlabel : string;
  ylabel : string;
  legend : bool;
  grid : bool
}.

(** What the program writes to: the warnings shown by [st.warning] and the
    lines drawn by [ax.plot], oldest first, and the file objects read so
    far, by identity. *)
Record world : Type := {
  st_warnings : list string;
  ax_lines : list line;
  file_reads : list nat
}.

(** The widgets the user answers: [st.multiselect label options] gives the
    options left selected. *)
Record widgets : Type := {
  multiselect : string -> list string -> list string
}.

(** Computations that write to the world and may raise. *)
Definition M (A : Type) : Type := world -> result (A * world).

Definition ret {A : Type} (a : A) : M A := fun w => Ok (a, w).

Definition bind {A B : Type} (m : M A) (k : A -> M B) : M B :=
  fun w => match m w with
           | Ok (a, w') => k a w'
           | Raise e => Raise e
           end.

Definition raise {A : Type} (e : exn) : M A := fun _ => Raise e.

Definition lift {A : Type} (r : result A) : M A :=
  fun w => match r with
           | Ok a => Ok (a, w)
           | Raise e => Raise e
           end.

Declare Scope io_scope.
Delimit Scope io_scope with io.
Notation "x <- m ;; k" := (bind m (fun x => k))
  (at level 61, m at next level, right associativity) : io_scope.
Notation "' pat <- m ;; k" := (bind m (fun x => match x with pat => k end))
  (at level 61, pat pattern, m at next level, right associativity) : io_scope.
Notation "m ;; k" := (bind m (fun _ => k))
  (at level 61, right associativity) : io_scope.

(** The world after one more warning, one more line, one more read. *)
Definition warned (w : world) (msg : string) : world :=
  {| st_warnings := st_warnings w ++ [msg];
     ax_lines := ax_lines w;
     file_reads := file_reads w |}.

Definition drawn (w : world) (l : line) : world :=
  {| st_warnings := st_warnings w;
     ax_lines := ax_lines w ++ [l];
     file_reads := file_reads w |}.

Definition read_once (w : world) (f : UploadedFile) : world :=
  {| st_warnings := st_warnings w;
     ax_lines := ax_lines w;
     file_reads := file_reads w ++ [file_id f] |}.

Definition st_warning (msg : string) : M unit := fun w => Ok (tt, warned w msg).

Definition ax_plot (l : line) : M unit := fun w => Ok (tt, drawn w l).

(** [fig, ax = plt.subplots(...)]: fresh, empty axes. *)
Definition subplots : M unit :=
  fun w => Ok (tt, {| st_warnings := st_warnings w;
                      ax_lines := [];
                      file_reads := file_reads w |}).

Definition get_lines : M (list line) := fun w => Ok (ax_lines w, w).

(** How often the file object has been read, and what its next read
    gives. *)
Definition reads_of (w : world) (f : UploadedFile) : nat :=
  count_occ Nat.eq_dec (file_reads w) (file_id f).

Definition next_read (w : world) (f : UploadedFile) : result DataFrame :=
  contents f (reads_of w f).

(** [pd.read_csv(csv_file, encoding='latin1')]; what it returns or raises
    is handed as a value to the [try] of lines 11-15. *)
Definition pd_read_csv (csv_file : UploadedFile) : M (result DataFrame) :=
  fun w => Ok (next_read w csv_file, read_once w csv_file).

(** A [for] loop whose body writes to the world. *)
Fixpoint for_eachM {I : Type} (body : I -> M unit) (items : list I) : M unit :=
  match items with
  | [] => ret tt
  | i :: rest => bind (body i) (fun _ => for_eachM body rest)
  end.

(** [enumerate(l)] *)
Definition enumerate {A : Type} (l : list A) : list (nat * A) :=
  combine (seq 0 (length l)) l.

(** [series.dropna()] on a text column. *)
Fixpoint dropna (col : list (option string)) : list string :=
  match col with
  | [] => []
  | Some s :: rest => s :: dropna rest
  | None :: rest => dropna rest
  end.

(** Lines 23-26 (and 27-30): the first cell of the unit column that is
    not missing, when there is such a column and such a cell. *)
Definition first_unit (col : option (list (option string))) (default : string)
  : string :=
  match col with
  | Some cells =>
      match dropna cells with
      | u :: _ => u
      | [] => default
      end
  | None => default
  end.

Definition loaded : Type :=
  (option (list float) * option (list float) * string * string)%type.

(** The text of the warning of line 14. *)
Definition empty_file_warning (csv_file : UploadedFile) : string :=
  ("⚠️ 文件 `" ++ name csv_file ++ "` 是空的或无效，跳过处理。")%string.

Definition read_cv_data (csv_file : UploadedFile) : M loaded :=
  (outcome <- pd_read_csv csv_file ;;
   match outcome with
   | Raise EmptyDataError =>
       st_warning (empty_file_warning csv_file) ;;
       ret (None, None, "V", "A")%string
   | Raise e => raise e
   | Ok df =>
       let potential := col_x df in
       let current := col_y df in
       let x_unit := first_unit (col_x_unit df) "V" in
       let y_unit := first_unit (col_y_unit df) "A" in
       ret (potential, current, x_unit, y_unit)
   end)%io.

(** ** Strings of labels *)

(** [str(n)] *)
Definition str_of_nat (n : nat) : string :=
  NilEmpty.string_of_uint (Nat.to_uint n).

(** [os.path.basename(path)]: what follows the last slash. *)
Fixpoint basename_from (acc path : string) : string :=
  match path with
  | EmptyString => acc
  | String c rest =>
      if Ascii.eqb c "/"%char then basename_from EmptyString rest
      else basename_from (acc ++ String c EmptyString) rest
  end.

Definition basename (path : string) : string := basename_from EmptyString path.

(** [s.replace(pat, '')] for a non-empty [pat]: the occurrences of [pat] are
    dropped from left to right; [skip] counts the characters of a found
    occurrence still to drop. *)
Fixpoint remove_all (pat : string) (skip : nat) (s : string) : string :=
  match s with
  | EmptyString => EmptyString
  | String c rest =>
      match skip with
      | S k => remove_all pat k rest
      | O =>
          if String.prefix pat s
          then remove_all pat (String.length pat - 1) rest
          else String c (remove_all pat 0 rest)
      end
  end.

(** [name in names] *)
Definition mem (s : string) (l : list string) : bool := existsb (String.eqb s) l.

(** [label or default] *)
Definition or_else (label : option string) (default : string) : string :=
  match label with
  | Some EmptyString | None => default
  | Some l => l
  end.

(** ** Plot composer *)

(** Modelled from the spec: the table of [colormaps.get_cmap('tab10')] is
    matplotlib's, not under src/.  Following section 4.4 it is a categorical
    palette of ten colours; [colors.N] is its size and [colors(k)] its
    entry [k], named here by its index. *)
Definition colors_N : nat := 10.
Definition colors (k : nat) : color := Tab10 k.

(** [series[k]] on a pandas Series with the default index. *)
Definition series_at (s : list float) (k : nat) : result float :=
  match nth_error s k with
  | Some v => Ok v
  | None => Raise KeyError
  end.

(** [segments[i]] *)
Definition segment_at (segments : list segment) (i : nat) : result segment :=
  match nth_error segments i with
  | Some sg => Ok sg
  | None => Raise IndexError
  end.

Definition select_cycles (st : widgets) (segments : list segment) (label : string)
  : list nat :=
  let cycle_labels :=
    map (fun i => ("Cycle " ++ str_of_nat (i + 1))%string)
        (range 0 (length segments)) in
  let selected := multiselect st label cycle_labels in
  map fst (filter (fun ic => mem (snd ic) selected) (enumerate cycle_labels)).

Definition plain_line (x y : list float) (lbl : string) (c : color)
    (a : option float) : line :=
  {| xdata := x; ydata := y; fmt := None; label := lbl;
     line_color := Some c; alpha := a; linewidth := Some 1 |}.

Definition marker_line (x y : float) (f lbl : string) : line :=
  {| xdata := [x]; ydata := [y]; fmt := Some f; label := lbl;
     line_color := None; alpha := None; linewidth := None |}.

(** The two [savgol_filter] calls and the plot of their results (lines
    76-78, 82-84, 119-121, 126-128). *)
Definition plot_smoothed (x y : list float) (lbl : string) (c : color) : M unit :=
  (x_smooth <- lift (savgol_filter x 11 3) ;;
   y_smooth <- lift (savgol_filter y 11 3) ;;
   ax_plot (plain_line x_smooth y_smooth lbl c None))%io.

(** The body of the loop of lines 71-78, for the selected cycle [i]. *)
Definition single_cycle_body (title : string) (potential current : list float)
    (segments : list segment) (smooth : bool) (i : nat) : M unit :=
  (' (start, stop) <- lift (segment_at segments i) ;;
   let color := colors (i mod colors_N) in
   ax_plot (plain_line (slice potential start stop) (slice current start stop)
              (title ++ " cycle " ++ str_of_nat (i + 1))%string color None) ;;
   if smooth
   then plot_smoothed (slice potential start stop) (slice current start stop)
          (title ++ " cycle " ++ str_of_nat (i + 1) ++ " smoothed")%string color
   else ret tt)%io.

(** Lines 86-90. *)
Definition mark_peak_lines (potential current : list float) : M unit :=
  (ox_idx <- lift (np_argmax current) ;;
   red_idx <- lift (np_argmin current) ;;
   px <- lift (series_at potential ox_idx) ;;
   cx <- lift (series_at current ox_idx) ;;
   ax_plot (marker_line px cx "ro" "Ox peak") ;;
   pr <- lift (series_at potential red_idx) ;;
   cr <- lift (series_at current red_idx) ;;
   ax_plot (marker_line pr cr "bo" "Red peak"))%io.

Definition finish_figure (x_unit y_unit : string) : M figure :=
  (lines <- get_lines ;;
   ret {| fig_lines := lines;
          xlabel := ("Potential (" ++ x_unit ++ ")")%string;
          ylabel := ("Current (" ++ y_unit ++ ")")%string;
          legend := true;
          grid := true |})%io.

(** The error of lines 62-63. *)
Definition missing_columns : exn := ValueError "CSV missing required columns".

Definition plot_single_cv (st : widgets) (csv_file : UploadedFile)
    (label : option string) (smooth mark_peaks auto_split : bool) : M figure :=
  (' (potential, current, x_unit, y_unit) <- read_cv_data csv_file ;;
   match potential, current with
   | Some potential, Some current =>
       subplots ;;
       let title := or_else label (basename (name csv_file)) in
       (if auto_split
        then
          segments <- lift (split_cycles_by_return_to_start potential tol_default) ;;
          let selected_cycles :=
            select_cycles st segments "选择拆分出来的圈数" in
          for_eachM (single_cycle_body title potential current segments smooth)
                    selected_cycles
        else
          ax_plot (plain_line potential current (title ++ " (raw)")%string
                     (Named "blue") (Some 0.6%float)) ;;
          if smooth
          then plot_smoothed potential current (title ++ " (smoothed)")%string
                 (Named "red")
          else ret tt) ;;
       (if mark_peaks && negb auto_split
        then mark_peak_lines potential current
        else ret tt) ;;
       finish_figure x_unit y_unit
   | _, _ => raise missing_columns
   end)%io.

(** The body of the loop of lines 114-121, for the selected cycle [j] of
    the file at position [i]. *)
Definition multi_cycle_body (i : nat) (f : UploadedFile)
    (potential current : list float) (segments : list segment) (smooth : bool)
    (j : nat) : M unit :=
  (' (start, stop) <- lift (segment_at segments j) ;;
   let color := colors ((i + j) mod colors_N) in
   ax_plot (plain_line (slice potential start stop) (slice current start stop)
              (name f ++ " cycle " ++ str_of_nat (j + 1))%string color None) ;;
   if smooth
   then plot_smoothed (slice potential start stop) (slice current start stop)
          (name f ++ " cycle " ++ str_of_nat (j + 1) ++ " smoothed")%string color
   else ret tt)%io.

(** [selected_files and f.name not in selected_files] *)
Definition deselected (selected_files : option (list string)) (f : UploadedFile)
  : bool :=
  match selected_files with
  | Some (s :: l) => negb (mem (name f) (s :: l))
  | _ => false
  end.

(** The body of the loop of lines 103-128, for the file [f] at position
    [i]. *)
Definition multi_file_body (st : widgets) (smooth : bool)
    (selected_files : option (list string)) (auto_split : bool)
    (item : nat * UploadedFile) : M unit :=
  let '(i, f) := item in
  if deselected selected_files f then ret tt
  else
    (' (potential, current, x_unit, y_unit) <- read_cv_data f ;;
     match potential, current with
     | Some potential, Some current =>
         if auto_split
         then
           segments <- lift (split_cycles_by_return_to_start potential tol_default) ;;
           let selected_cycles :=
             select_cycles st segments
               ("选择文件 " ++ name f ++ " 的圈数")%string in
           for_eachM (multi_cycle_body i f potential current segments smooth)
                     selected_cycles
         else
           let color := colors (i mod colors_N) in
           ax_plot (plain_line potential current
                      (remove_all ".csv" 0 (name f) ++ " (raw)")%string
                      color (Some 0.6%float)) ;;
           if smooth
           then plot_smoothed potential current
                  (remove_all ".csv" 0 (name f) ++ " (smoothed)")%string color
           else ret tt
     | _, _ => ret tt
     end)%io.

(** Lines 130-135: the units of the axis labels. *)
Definition axis_units (files : list UploadedFile) : M (string * string) :=
  match files with
  | f0 :: _ =>
      (' (first_p, first_c, x_unit, y_unit) <- read_cv_data f0 ;;
       match first_p, first_c with
       | Some _, Some _ => ret (x_unit, y_unit)
       | _, _ => ret ("V", "A")%string
       end)%io
  | [] => ret ("V", "A")%string
  end.

Definition plot_multi_cv (st : widgets) (files : list UploadedFile)
    (smooth : bool) (selected_files : option (list string)) (auto_split : bool)
  : M figure :=
  (subplots ;;
   for_eachM (multi_file_body st smooth selected_files auto_split)
             (enumerate files) ;;
   ' (x_unit, y_unit) <- axis_units files ;;
   finish_figure x_unit y_unit)%io.


(** ** The cycle segmenter on a column of integers

    A column in which pandas finds only integers has dtype int64, with
    values in [[-2^63, 2^63)].  The code is the same, lines 34-51; numpy
    computes [potential[i] - v0] and [abs] in int64, where both wrap
    around, and converts the result to binary64 for the comparison with
    [tol]. *)

Definition int64_wrap (z : Z) : Z := ((z + 2 ^ 63) mod 2 ^ 64 - 2 ^ 63)%Z.

(** The binary64 number nearest to an int64. *)
Definition float_of_int64 (z : Z) : float :=
  if (z =? - 2 ^ 63)%Z then (-9223372036854775808)%float else float_of_Z z.

Definition getitem_int64 (a : list Z) (i : nat) : result Z :=
  match nth_error a i with
  | Some v => Ok v
  | None => Raise IndexError
  end.

(** The test of line 43 in int64. *)
Definition returns_to_start_int64 (x v0 : Z) (tol : float) (i start_idx : nat)
  : bool :=
  (PrimFloat.ltb
     (float_of_int64 (int64_wrap (Z.abs (int64_wrap (x - v0))))) tol)
  && (Z.of_nat i - Z.of_nat start_idx >? 10)%Z.

Definition segment_step_int64 (potential : list Z) (v0 : Z) (tol : float)
    (st : list segment * nat) (i : nat) : result (list segment * nat) :=
  let '(segments, start_idx) := st in
  (x <- getitem_int64 potential i ;;
   if returns_to_start_int64 x v0 tol i start_idx
   then Ok (segments ++ [(start_idx, i)], i)
   else Ok (segments, start_idx))%result.

Definition split_cycles_by_return_to_start_int64 (potential : list Z)
    (tol : float) : result (list segment) :=
  (v0 <- getitem_int64 potential 0 ;;
   ' (segments, start_idx) <-
      for_each (segment_step_int64 potential v0 tol)
               (range 1 (length potential)) ([], 0) ;;
   if start_idx <? length potential
   then Ok (segments ++ [(start_idx, length potential)])
   else Ok segments)%result.

(** ** What a list of segments has to satisfy *)

(** [chain a segs b]: the segments are non-empty, the first starts at [a],
    each starts where the previous one ends, the last ends at [b]. *)
Fixpoint chain (a : nat) (segs : list segment) (b : nat) : Prop :=
  match segs with
  | [] => a = b
  | (s, e) :: rest => s = a /\ s < e /\ chain e rest b
  end.

(** Index [k] lies in the segment. *)
Definition inside (k : nat) (sg : segment) : Prop := fst sg <= k < snd sg.

(** Each segment starts where the one before it ends. *)
Fixpoint contiguous (segs : list segment) : Prop :=
  match segs with
  | [] => True
  | sg :: rest =>
      match rest with
      | [] => True
      | sg' :: _ => snd sg = fst sg'
      end /\ contiguous rest
  end.

(** The partition of [[0, n)] the specification asks of the segmenter:
    every index is in exactly one position of the list, consecutive segments
    touch, and the starts increase strictly. *)
Definition partitions (segs : list segment) (n : nat) : Prop :=
  (forall k, k < n ->
     exists j sg, nth_error segs j = Some sg /\ inside k sg /\
       forall j' sg', nth_error segs j' = Some sg' -> inside k sg' -> j' = j)
  /\ (forall j sg, nth_error segs j = Some sg -> fst sg < snd sg <= n)
  /\ contiguous segs
  /\ (forall j1 j2 sg1 sg2, j1 < j2 ->
        nth_error segs j1 = Some sg1 -> nth_error segs j2 = Some sg2 ->
        snd sg1 <= fst sg2 /\ fst sg1 < fst sg2).

(** The segment is longer than the fixed minimum of line 43. *)
Definition long_enough (sg : segment) : Prop :=
  (Z.of_nat (snd sg) - Z.of_nat (fst sg) > 10)%Z.

(** The state of the scan before index [i]: the closed segments tile
    [[0, start_idx)], each is longer than the minimum, and the open one
    is not empty. *)
Definition scan_invariant (i : nat) (st : list segment * nat) : Prop :=
  chain 0 (fst st) (snd st) /\ snd st < i /\ Forall long_enough (fst st).

(** ** What the peak locator has to return *)

Definition not_nan (x : float) : Prop := is_nan x = false.

(** [b] is the first index at which [a] takes its largest value. *)
Definition first_max (a : list float) (b : nat) : Prop :=
  exists m, nth_error a b = Some m
    /\ (forall k v, nth_error a k = Some v -> PrimFloat.leb v m = true)
    /\ (forall k v, k < b -> nth_error a k = Some v -> PrimFloat.ltb v m = true).

(** [b] is the first index at which [a] takes its smallest value. *)
Definition first_min (a : list float) (b : nat) : Prop :=
  exists m, nth_error a b = Some m
    /\ (forall k v, nth_error a k = Some v -> PrimFloat.leb m v = true)
    /\ (forall k v, k < b -> nth_error a k = Some v -> PrimFloat.ltb m v = true).

(** The same for an order [le] with strict part [lt]: [b] is the first
    index at which [a] takes its [le]-largest value. *)
Definition first_best (le lt : float -> float -> bool) (a : list float) (b : nat)
  : Prop :=
  exists m, nth_error a b = Some m
    /\ (forall k v, nth_error a k = Some v -> le v m = true)
    /\ (forall k v, k < b -> nth_error a k = Some v -> lt v m = true).

(** ** What the overlay has to draw *)

(** What [enumerate] gives for the files after position [a]. *)
Definition enumerate_from {A : Type} (a : nat) (l : list A) : list (nat * A) :=
  combine (seq a (length l)) l.

(** The line is one of the two drawn for cycle [j] of the file [f]
    (lines 117 and 121). *)
Definition is_cycle_line_of (f : UploadedFile) (j : nat) (l : line) : Prop :=
  label l = (name f ++ " cycle " ++ str_of_nat (j + 1))%string
  \/ label l = (name f ++ " cycle " ++ str_of_nat (j + 1) ++ " smoothed")%string.

(** The line is one of cycle [j] of the file [f] at position [i], in the
    colour [(i + j) mod 10] of the palette. *)
Definition cycle_colored (i : nat) (f : UploadedFile) (j : nat) (l : line) : Prop :=
  is_cycle_line_of f j l /\ line_color l = Some (Tab10 ((i + j) mod 10)).

Definition overlay_cycle_line (files : list UploadedFile) (l : line) : Prop :=
  exists i f j, nth_error files i = Some f /\ cycle_colored i f j l.

(** Every warning of [ws] is the one about some file of [files] being
    empty. *)
Definition only_empty_file_warnings (files : list UploadedFile) (ws : list string)
  : Prop :=
  Forall (fun m => exists f, In f files /\ m = empty_file_warning f) ws.

(** The files the overlay loop loads: those it does not pass over at
    lines 104-105. *)
Definition loaded_files (selected_files : option (list string))
    (files : list UploadedFile) : list UploadedFile :=
  filter (fun f => negb (deselected selected_files f)) files.

(** The units the loader returns for an outcome of [pd.read_csv], with
    the fallback of lines 132-133. *)
Definition units_of_outcome (outcome : result DataFrame) : string * string :=
  match outcome with
  | Ok df =>
      match col_x df, col_y df with
      | Some _, Some _ =>
          (first_unit (col_x_unit df) "V", first_unit (col_y_unit df) "A")
      | _, _ => ("V", "A")
      end
  | Raise _ => ("V", "A")
  end%string.

(** The units lines 130-135 arrive at when the file objects of [reads]
    have been read before: those of the next read of the first file of the
    list. *)
Definition axis_units_after (files : list UploadedFile) (reads : list nat)
  : string * string :=
  match files with
  | f0 :: _ =>
      units_of_outcome (contents f0 (count_occ Nat.eq_dec reads (file_id f0)))
  | [] => ("V", "A")%string
  end.

(** ** Data used in examples *)

(** The state of a fresh page. *)
Definition fresh : world :=
  {| st_warnings := []; ax_lines := []; file_reads := [] |}.

(** Every option of a multiselect left selected (its default). *)
Definition select_all : widgets := {| multiselect := fun _ options => options |}.

(** A file object that reads as [outcome] each time. *)
Definition always (outcome : result DataFrame) : nat -> result DataFrame :=
  fun _ => outcome.

(** A file object whose stream is used up by its first read: pandas finds
    nothing to parse in it afterwards. *)
Definition only_once (df : DataFrame) : nat -> result DataFrame :=
  fun k => match k with
           | O => Ok df
           | S _ => Raise EmptyDataError
           end.

(** The potentials of the specification's example: two sweeps 0, 1, 2, 3
    and the return to 0. *)
Definition two_sweeps : list float := [0; 1; 2; 3; 0; 1; 2; 3; 0]%float.

(** A sweep that is back at its start after eleven steps, and goes on. *)
Definition returning_sweep : list float :=
  [0; 1; 2; 3; 4; 5; 6; 7; 8; 9; 10; 0; 1]%float.

(** The currents of the specification's example. *)
Definition five_currents : list float := [1; 5; 2; -3; 0]%float.

Definition frame_of (x y : list float) (x_unit y_unit : option (list (option string)))
  : DataFrame :=
  {| col_x := Some x; col_y := Some y; col_x_unit := x_unit; col_y_unit := y_unit |}.

(** A file with the header [x,y] and no data row, as pandas reads it:
    both columns are there and empty. *)
Definition header_only : UploadedFile :=
  {| name := "empty.csv"; file_id := 0;
     contents := always (Ok (frame_of [] [] None None)) |}.

(** Three points, fewer than the smoothing window. *)
Definition short_file : UploadedFile :=
  {| name := "short.csv"; file_id := 1;
     contents := always (Ok (frame_of [0; 1; 2]%float [1; 5; -3]%float None None)) |}.

(** Thirteen points in two cycles, the second of two points. *)
Definition sweep_file : UploadedFile :=
  {| name := "sweep.csv"; file_id := 2;
     contents := always (Ok (frame_of returning_sweep returning_sweep None None)) |}.

(** A file pandas finds nothing to parse in. *)
Definition empty_file : UploadedFile :=
  {| name := "nothing.csv"; file_id := 3;
     contents := always (Raise EmptyDataError) |}.

Definition frame_without_x : DataFrame :=
  {| col_x := None; col_y := Some [1; 5; -3]%float;
     col_x_unit := None; col_y_unit := None |}.

(** A file with a [y] column and no [x] column. *)
Definition no_x_file : UploadedFile :=
  {| name := "no_x.csv"; file_id := 4; contents := always (Ok frame_without_x) |}.

Definition millivolt_frame : DataFrame :=
  frame_of [0; 1; 2]%float [1; 5; -3]%float
           (Some [Some "mV"; None; None]%string)
           (Some [Some "uA"; None; None]%string).

Definition volt_frame : DataFrame :=
  frame_of [0; 1; 2]%float [2; 4; -1]%float
           (Some [Some "V"; None; None]%string)
           (Some [Some "A"; None; None]%string).

(** A file in millivolts and microamperes. *)
Definition millivolt_file : UploadedFile :=
  {| name := "a.csv"; file_id := 5; contents := always (Ok millivolt_frame) |}.

(** A file in volts and amperes. *)
Definition volt_file : UploadedFile :=
  {| name := "b.csv"; file_id := 6; contents := always (Ok volt_frame) |}.

(** The file in millivolts again, as an object whose stream the first read
    uses up. *)
Definition millivolt_stream : UploadedFile :=
  {| name := "a.csv"; file_id := 7; contents := only_once millivolt_frame |}.

(** ** What the segmenter's cuts have to satisfy *)

(** The segment [(s, e)] of [potential] ends at the first index from [lo]
    on that passes the test of line 43 against the start [s], or at the end
    of the sequence when there is none. *)
Definition ends_at_first_return (potential : list float) (v0 tol : float)
    (lo : nat) (sg : segment) : Prop :=
  (snd sg = length potential
   \/ exists x, nth_error potential (snd sg) = Some x
                /\ returns_to_start x v0 tol (snd sg) (fst sg) = true)
  /\ forall k x, lo <= k < snd sg -> nth_error potential k = Some x ->
       returns_to_start x v0 tol k (fst sg) = false.

(** The segments are what a scan gives that has reached index [lo] with
    the open segment starting at [start_idx]. *)
Fixpoint scanned (potential : list float) (v0 tol : float) (lo start_idx : nat)
    (segs : list segment) : Prop :=
  match segs with
  | [] => True
  | sg :: rest =>
      fst sg = start_idx
      /\ ends_at_first_return potential v0 tol lo sg
      /\ scanned potential v0 tol (S (snd sg)) (snd sg) rest
  end.

(** ** What the cycle selection has to return *)

(** The options of the multiselect of line 55. *)
Definition cycle_labels (segments : list segment) : list string :=
  map (fun i => ("Cycle " ++ str_of_nat (i + 1))%string)
      (range 0 (length segments)).

(** ** What the renders have to draw *)

(** The world after more lines. *)
Definition drawn_all (w : world) (new : list line) : world :=
  {| st_warnings := st_warnings w;
     ax_lines := ax_lines w ++ new;
     file_reads := file_reads w |}.

(** From [w] to [w'] lines were drawn and nothing else happened. *)
Definition only_draws (w w' : world) : Prop :=
  st_warnings w' = st_warnings w
  /\ file_reads w' = file_reads w
  /\ exists new, ax_lines w' = ax_lines w ++ new.

(** The line of lines 73-74 for the cycle at position [fst item] with the
    segment [snd item]. *)
Definition single_cycle_line (title : string) (potential current : list float)
    (item : nat * segment) : line :=
  plain_line (slice potential (fst (snd item)) (snd (snd item)))
             (slice current (fst (snd item)) (snd (snd item)))
             (title ++ " cycle " ++ str_of_nat (fst item + 1))%string
             (colors (fst item mod colors_N)) None.

(** The line is one of the two drawn without auto-split for the file [f]
    at position [i] (lines 124 and 128): labelled with the name without
    [.csv], in the colour [i mod 10] of the palette, without a marker. *)
Definition file_colored (i : nat) (f : UploadedFile) (l : line) : Prop :=
  (label l = (remove_all ".csv" 0 (name f) ++ " (raw)")%string
   \/ label l = (remove_all ".csv" 0 (name f) ++ " (smoothed)")%string)
  /\ line_color l = Some (colors (i mod colors_N))
  /\ fmt l = None.

Definition overlay_file_line (selected_files : option (list string))
    (files : list UploadedFile) (l : line) : Prop :=
  exists i f, nth_error files i = Some f
    /\ deselected selected_files f = false /\ file_colored i f l.

(** The outcome of a read is a frame or the report of an empty file. *)
Definition no_parse_error (outcome : result DataFrame) : Prop :=
  match outcome with
  | Ok _ | Raise EmptyDataError => True
  | Raise _ => False
  end.

(** The line of line 124 for the file [f] at position [i]. *)
Definition raw_overlay_line (i : nat) (f : UploadedFile) (x y : list float) : line :=
  plain_line x y (remove_all ".csv" 0 (name f) ++ " (raw)")%string
             (colors (i mod colors_N)) (Some 0.6%float).

(** The lines of an overlay without auto-split and smoothing, of files
    read for the first time. *)
Definition raw_overlay_lines (selected_files : option (list string))
    (items : list (nat * UploadedFile)) : list line :=
  flat_map
    (fun item =>
       if deselected selected_files (snd item) then []
       else match contents (snd item) 0 with
            | Ok df =>
                match col_x df, col_y df with
                | Some x, Some y => [raw_overlay_line (fst item) (snd item) x y]
                | _, _ => []
                end
            | Raise _ => []
            end)
    items.

(** A file pandas cannot parse. *)
Definition garbled_file : UploadedFile :=
  {| name := "garbled.csv"; file_id := 8; contents := always (Raise ParserError) |}.

(** [f] is a stream its first read uses up, as the objects of
    [st.file_uploader] are: [pd.read_csv] leaves it at its end, and every
    later read finds nothing to parse. *)
Definition used_up_by_first_read (f : UploadedFile) : Prop :=
  forall k, contents f (S k) = Raise EmptyDataError.

(** The warnings of the overlay loop for files read for the first time:
    one for each file that is loaded and found empty. *)
Definition raw_overlay_warnings (selected_files : option (list string))
    (files : list UploadedFile) : list string :=
  flat_map
    (fun f =>
       if deselected selected_files f then []
       else match contents f 0 with
            | Ok _ => []
            | Raise _ => [empty_file_warning f]
            end)
    files.

(** Which read of the first file the read of line 131 is, for files not
    read before the overlay: its second read when the loop has loaded it,
    its first when the loop has passed it over. *)
Definition reread_number (selected_files : option (list string))
    (f0 : UploadedFile) : nat :=
  if deselected selected_files f0 then 0 else 1.

(** The warning of the read of line 131. *)
Definition reread_warning (selected_files : option (list string))
    (files : list UploadedFile) : list string :=
  match files with
  | [] => []
  | f0 :: _ =>
      match contents f0 (reread_number selected_files f0) with
      | Ok _ => []
      | Raise _ => [empty_file_warning f0]
      end
  end.

(** The units lines 130-135 arrive at. *)
Definition reread_units (selected_files : option (list string))
    (files : list UploadedFile) : string * string :=
  match files with
  | [] => ("V", "A")%string
  | f0 :: _ => units_of_outcome (contents f0 (reread_number selected_files f0))
  end.

(** A file without an [x] column, as a stream. *)
Definition no_x_stream : UploadedFile :=
  {| name := "no_x.csv"; file_id := 9; contents := only_once frame_without_x |}.

(** The file in volts and amperes, as a stream. *)
Definition volt_stream : UploadedFile :=
  {| name := "b.csv"; file_id := 10; contents := only_once volt_frame |}.

(** A column of integers: a sweep from 0 to 10, then the least int64 and
    1. *)
Definition wrapping_sweep : list Z :=
  [0; 1; 2; 3; 4; 5; 6; 7; 8; 9; 10; - 2 ^ 63; 1]%Z.

(* ================================================================= *)
(** * Properties *)

(** ** The loop combinator *)

(** A loop over [a, a+1, ..., a+n-1] whose body keeps an indexed invariant
    and never raises, runs to its end and establishes the invariant there. *)
Lemma for_each_seq_invariant {S : Type} (body : S -> nat -> result S)
    (Inv : nat -> S -> Prop) (n : nat) :
  forall (a : nat) (s : S),
    (forall i st, a <= i < a + n -> Inv i st ->
       exists st', body st i = Ok st' /\ Inv (Datatypes.S i) st') ->
    Inv a s ->
    exists s', for_each body (seq a n) s = Ok s' /\ Inv (a + n) s'.
Proof.
  induction n as [|n IH]; intros a s Hstep Ha; simpl.
  - exists s. rewrite Nat.add_0_r. auto.
  - destruct (Hstep a s) as [s1 [E1 I1]]; [lia | exact Ha |].
    rewrite E1; simpl.
    destruct (IH (Datatypes.S a) s1) as [s2 [E2 I2]].
    + intros i st Hi HI. apply Hstep; [lia | exact HI].
    + exact I1.
    + exists s2. split; [exact E2|].
      replace (a + Datatypes.S n) with (Datatypes.S a + n) by lia. exact I2.
Qed.

(** ** Chains of segments *)

Lemma chain_snoc (segs : list segment) :
  forall a b c, chain a segs b -> b < c -> chain a (segs ++ [(b, c)]) c.
Proof.
  induction segs as [|[s e] rest IH]; intros a b c H Hlt; simpl in *.
  - subst. auto.
  - destruct H as [Hs [Hse Hr]]. repeat split; eauto.
Qed.

Lemma chain_le (segs : list segment) :
  forall a b, chain a segs b -> a <= b.
Proof.
  induction segs as [|[s e] rest IH]; intros a b H; simpl in *.
  - lia.
  - destruct H as [Hs [Hse Hr]]. apply IH in Hr. lia.
Qed.

Lemma chain_bounds (segs : list segment) :
  forall a b j sg, chain a segs b -> nth_error segs j = Some sg ->
    a <= fst sg /\ fst sg < snd sg /\ snd sg <= b.
Proof.
  induction segs as [|[s e] rest IH]; intros a b j sg H Hj; simpl in *.
  - destruct j; discriminate.
  - destruct H as [Hs [Hse Hr]]. destruct j as [|j]; simpl in Hj.
    + inversion Hj; subst; simpl. apply chain_le in Hr. lia.
    + destruct (IH _ _ _ _ Hr Hj) as [H1 [H2 H3]]. lia.
Qed.

Lemma chain_contiguous (segs : list segment) :
  forall a b, chain a segs b -> contiguous segs.
Proof.
  induction segs as [|[s e] rest IH]; intros a b H; simpl in *; [exact I|].
  destruct H as [Hs [Hse Hr]]. split; [|eapply IH; eauto].
  destruct rest as [|[s' e'] rest']; [exact I|]. simpl in *. intuition.
Qed.

Lemma chain_ordered (segs : list segment) :
  forall a b j1 j2 sg1 sg2, chain a segs b -> j1 < j2 ->
    nth_error segs j1 = Some sg1 -> nth_error segs j2 = Some sg2 ->
    snd sg1 <= fst sg2 /\ fst sg1 < fst sg2.
Proof.
  induction segs as [|[s e] rest IH]; intros a b j1 j2 sg1 sg2 H Hlt H1 H2;
    simpl in *.
  - destruct j1; discriminate.
  - destruct H as [Hs [Hse Hr]].
    destruct j2 as [|j2]; [lia|]. simpl in H2.
    destruct j1 as [|j1]; simpl in H1.
    + inversion H1; subst; simpl.
      destruct (chain_bounds _ _ _ _ _ Hr H2) as [B1 _]. lia.
    + apply (IH e b j1 j2); auto. lia.
Qed.

Lemma chain_covers (segs : list segment) :
  forall a b k, chain a segs b -> a <= k < b ->
    exists j sg, nth_error segs j = Some sg /\ inside k sg.
Proof.
  induction segs as [|[s e] rest IH]; intros a b k H Hk; simpl in *.
  - lia.
  - destruct H as [Hs [Hse Hr]]. subst s.
    destruct (Nat.ltb_spec k e) as [Hke|Hke].
    + exists 0, (a, e). split; [reflexivity|]. unfold inside; simpl; lia.
    + destruct (IH e b k Hr) as [j [sg [Hj Hin]]]; [lia|].
      exists (Datatypes.S j), sg. auto.
Qed.

Lemma chain_partitions (segs : list segment) (n : nat) :
  chain 0 segs n -> partitions segs n.
Proof.
  intros H. unfold partitions. repeat split.
  - intros k Hk.
    destruct (chain_covers _ _ _ k H) as [j [sg [Hj Hin]]]; [lia|].
    exists j, sg. repeat split; try apply Hin; auto.
    intros j' sg' Hj' Hin'.
    destruct (Nat.lt_trichotomy j' j) as [L|[E|L]]; [|exact E|].
    + destruct (chain_ordered _ _ _ _ _ _ _ H L Hj' Hj) as [O _].
      unfold inside in *. lia.
    + destruct (chain_ordered _ _ _ _ _ _ _ H L Hj Hj') as [O _].
      unfold inside in *. lia.
  - destruct (chain_bounds _ _ _ _ _ H H0) as [_ [B _]]. exact B.
  - destruct (chain_bounds _ _ _ _ _ H H0) as [_ [_ B]]. exact B.
  - eapply chain_contiguous; eauto.
  - eapply chain_ordered; eauto.
  - eapply chain_ordered; eauto.
Qed.

(** ** The cycle segmenter *)

Lemma getitem_in_range (a : list float) (i : nat) :
  i < length a -> exists x, getitem a i = Ok x /\ nth_error a i = Some x.
Proof.
  intros H. unfold getitem.
  destruct (nth_error a i) as [x|] eqn:E.
  - exists x. auto.
  - apply nth_error_None in E. lia.
Qed.

Lemma segment_step_invariant (potential : list float) (v0 tol : float)
    (i : nat) (st : list segment * nat) :
  i < length potential -> scan_invariant i st ->
  exists st', segment_step potential v0 tol st i = Ok st'
              /\ scan_invariant (S i) st'.
Proof.
  intros Hi [Hc [Hlt Hlong]]. destruct st as [segments start_idx]; simpl in *.
  destruct (getitem_in_range potential i Hi) as [x [Ex _]].
  rewrite Ex; simpl.
  destruct (returns_to_start x v0 tol i start_idx) eqn:Ec.
  - eexists; split; [reflexivity|]. unfold scan_invariant; simpl.
    repeat split.
    + apply chain_snoc; assumption.
    + lia.
    + apply Forall_app. split; [assumption|]. constructor; [|constructor].
      unfold returns_to_start in Ec. apply andb_true_iff in Ec as [_ Ec].
      unfold long_enough; simpl. lia.
  - eexists; split; [reflexivity|]. unfold scan_invariant; simpl.
    repeat split; auto.
Qed.

(** On a sequence with at least one point the segmenter returns: the closed
    segments followed by the trailing one, which together tile the whole
    index range. *)
Lemma split_cycles_shape (v0 : float) (rest : list float) (tol : float) :
  exists segments start_idx,
    split_cycles_by_return_to_start (v0 :: rest) tol
      = Ok (segments ++ [(start_idx, S (length rest))])
    /\ chain 0 segments start_idx
    /\ start_idx < S (length rest)
    /\ Forall long_enough segments.
Proof.
  unfold split_cycles_by_return_to_start, range.
  replace (length (v0 :: rest) - 1) with (length rest) by (simpl; lia).
  cbn [getitem nth_error rbind].
  destruct (for_each_seq_invariant
              (segment_step (v0 :: rest) v0 tol) scan_invariant
              (length rest) 1 ([], 0))
    as [[segments start_idx] [E [Hc [Hlt Hlong]]]].
  - intros i st Hi HI. apply segment_step_invariant; [simpl; lia | exact HI].
  - unfold scan_invariant; simpl. repeat split; auto.
  - rewrite E. cbn [rbind fst snd length] in *. exists segments, start_idx.
    destruct (Nat.ltb_spec start_idx (S (length rest))) as [L|L]; [|lia].
    repeat split; auto.
Qed.

Lemma split_cycles_partitions (v0 : float) (rest : list float) (tol : float) :
  exists segs,
    split_cycles_by_return_to_start (v0 :: rest) tol = Ok segs
    /\ partitions segs (length (v0 :: rest)).
Proof.
  destruct (split_cycles_shape v0 rest tol) as [segments [start_idx [E [Hc [Hlt _]]]]].
  eexists; split; [exact E|].
  apply chain_partitions. apply chain_snoc; assumption.
Qed.

(** The source's loop and trailing test compute what the specification's
    scan computes when its [min_length] is fixed to 10. *)
Lemma segment_loop_refines (v0 tol : float) (rest : list float) :
  forall (pre : list float) (segments : list segment) (start_idx : nat),
    (' (sg, st) <- for_each (segment_step (pre ++ rest) v0 tol)
                     (seq (length pre) (length rest)) (segments, start_idx) ;;
     if st <? length (pre ++ rest)
     then Ok (sg ++ [(st, length (pre ++ rest))])
     else Ok sg)%result
    = Ok (segments ++ segment_scan v0 tol 10 rest (length pre) start_idx).
Proof.
  induction rest as [|x rest IH]; intros pre segments start_idx.
  - simpl. rewrite app_nil_r.
    destruct (start_idx <? length pre); [reflexivity|].
    rewrite app_nil_r. reflexivity.
  - cbn [length seq for_each segment_step].
    unfold getitem. rewrite nth_error_app2 by lia.
    rewrite Nat.sub_diag. cbn [nth_error rbind].
    unfold returns_to_start. cbn [segment_scan].
    specialize (IH (pre ++ [x])).
    rewrite <- app_assoc in IH. cbn [app] in IH.
    rewrite length_app in IH. cbn [length] in IH.
    rewrite Nat.add_1_r in IH.
    destruct ((PrimFloat.ltb (PrimFloat.abs (PrimFloat.sub x v0)) tol)
              && (Z.of_nat (length pre) - Z.of_nat start_idx >? 10)%Z).
    + cbn [rbind]. rewrite IH. rewrite <- app_assoc. reflexivity.
    + cbn [rbind]. apply IH.
Qed.

Lemma split_cycles_refines (v0 : float) (rest : list float) (tol : float) :
  split_cycles_by_return_to_start (v0 :: rest) tol
  = Ok (segment_spec (v0 :: rest) tol 10).
Proof.
  unfold split_cycles_by_return_to_start, range, segment_spec.
  replace (length (v0 :: rest) - 1) with (length rest) by (simpl; lia).
  cbn [getitem nth_error rbind].
  exact (segment_loop_refines v0 tol rest [v0] [] 0).
Qed.

(** When no point after the first passes the test of line 43 against the
    start index 0, the scan closes nothing. *)
Lemma segment_scan_no_return (v0 tol : float) (rest : list float) :
  forall i,
    (forall k x, nth_error rest k = Some x ->
       returns_to_start x v0 tol (i + k) 0 = false) ->
    segment_scan v0 tol 10 rest i 0 = if 0 <? i + length rest then [(0, i + length rest)] else [].
Proof.
  induction rest as [|x rest IH]; intros i H; cbn [segment_scan length].
  - rewrite Nat.add_0_r. reflexivity.
  - pose proof (H 0 x eq_refl) as H0. rewrite Nat.add_0_r in H0.
    unfold returns_to_start in H0. rewrite H0.
    rewrite IH.
    + replace (S i + length rest) with (i + S (length rest)) by lia. reflexivity.
    + intros k y Hk. replace (S i + k) with (i + S k) by lia.
      apply H. exact Hk.
Qed.

(** ** Order of binary64 numbers *)

Ltac cmp_cases :=
  repeat match goal with
  | |- context [Z.compare ?a ?b] => destruct (Z.compare_spec a b)
  | H : context [Z.compare ?a ?b] |- _ => destruct (Z.compare_spec a b)
  | |- context [Pos.compare_cont Eq ?a ?b] =>
      change (Pos.compare_cont Eq a b) with (Pos.compare a b);
      destruct (Pos.compare_spec a b)
  | H : context [Pos.compare_cont Eq ?a ?b] |- _ =>
      change (Pos.compare_cont Eq a b) with (Pos.compare a b) in H;
      destruct (Pos.compare_spec a b)
  end; simpl in *; try discriminate; try reflexivity; try lia.

Ltac by_sf_cases a b :=
  destruct a as [[]|[]| |[] ? ?]; destruct b as [[]|[]| |[] ? ?];
  simpl; intros; try congruence; cmp_cases.

Lemma SFleb_refl (a : spec_float) : a <> S754_nan -> SFleb a a = true.
Proof.
  unfold SFleb. destruct a as [[]|[]| |[] m e]; simpl; intros H;
    try reflexivity; try congruence;
    rewrite Z.compare_refl, Pos.compare_cont_refl; reflexivity.
Qed.

Lemma SFltb_false_leb (a b : spec_float) :
  a <> S754_nan -> b <> S754_nan -> SFltb a b = false -> SFleb b a = true.
Proof. unfold SFleb, SFltb. by_sf_cases a b. Qed.

Lemma SFleb_ltb_trans (a b c : spec_float) :
  SFleb a b = true -> SFltb b c = true -> SFltb a c = true.
Proof.
  unfold SFleb, SFltb. destruct c as [[]|[]| |[] m3 e3]; by_sf_cases a b.
Qed.

Lemma SFltb_leb_trans (a b c : spec_float) :
  SFltb a b = true -> SFleb b c = true -> SFltb a c = true.
Proof.
  unfold SFleb, SFltb. destruct c as [[]|[]| |[] m3 e3]; by_sf_cases a b.
Qed.

Lemma SFltb_leb (a b : spec_float) : SFltb a b = true -> SFleb a b = true.
Proof.
  unfold SFleb, SFltb. destruct (SFcompare a b) as [[]|]; congruence.
Qed.

Lemma not_nan_spec (x : float) : not_nan x -> Prim2SF x <> S754_nan.
Proof.
  unfold not_nan, is_nan. rewrite eqb_spec. intros H E. rewrite E in H.
  discriminate.
Qed.

Lemma leb_refl (x : float) : not_nan x -> PrimFloat.leb x x = true.
Proof. intros H. rewrite leb_spec. apply SFleb_refl, not_nan_spec, H. Qed.

Lemma ltb_false_leb (x y : float) :
  not_nan x -> not_nan y -> PrimFloat.ltb x y = false -> PrimFloat.leb y x = true.
Proof.
  intros Hx Hy. rewrite leb_spec, ltb_spec.
  apply SFltb_false_leb; apply not_nan_spec; assumption.
Qed.

Lemma leb_ltb_trans (x y z : float) :
  PrimFloat.leb x y = true -> PrimFloat.ltb y z = true -> PrimFloat.ltb x z = true.
Proof. rewrite leb_spec, !ltb_spec. apply SFleb_ltb_trans. Qed.

Lemma ltb_leb_trans (x y z : float) :
  PrimFloat.ltb x y = true -> PrimFloat.leb y z = true -> PrimFloat.ltb x z = true.
Proof. rewrite leb_spec, !ltb_spec. apply SFltb_leb_trans. Qed.

Lemma ltb_leb (x y : float) : PrimFloat.ltb x y = true -> PrimFloat.leb x y = true.
Proof. rewrite leb_spec, ltb_spec. apply SFltb_leb. Qed.

(** ** The peak locator *)

Section ArgScan.
(** The scan for an extremum of an order [le] with strict part [lt], on
    values that are not NaN. *)
Variables better le lt : float -> float -> bool.
Hypothesis le_refl : forall a, not_nan a -> le a a = true.
Hypothesis better_lt : forall x b, better x b = true -> lt b x = true.
Hypothesis worse_le : forall x b, not_nan x -> not_nan b ->
  better x b = false -> le x b = true.
Hypothesis le_lt_trans : forall a b c,
  le a b = true -> lt b c = true -> lt a c = true.
Hypothesis lt_le : forall a b, lt a b = true -> le a b = true.

Lemma arg_scan_first_best (rest : list float) :
  forall (pre : list float) (best_idx : nat) (best : float),
    Forall not_nan pre -> Forall not_nan rest ->
    first_best le lt pre best_idx ->
    nth_error pre best_idx = Some best ->
    first_best le lt (pre ++ rest)
               (arg_scan better rest (length pre) best_idx best).
Proof.
  induction rest as [|x rest IH]; intros pre best_idx best Hpre Hrest Hb Hn;
    cbn [arg_scan].
  - rewrite app_nil_r. exact Hb.
  - assert (Hbest : not_nan best).
    { rewrite Forall_forall in Hpre. apply Hpre.
      eapply nth_error_In; eauto. }
    inversion Hrest as [|? ? Hx Hrest']; subst.
    destruct Hb as [m [Hm [Hall Hbefore]]].
    assert (m = best) by congruence. subst m.
    replace (pre ++ x :: rest) with ((pre ++ [x]) ++ rest)
      by (rewrite <- app_assoc; reflexivity).
    replace (S (length pre)) with (length (pre ++ [x]))
      by (rewrite length_app; simpl; lia).
    destruct (better x best) eqn:Eb.
    + apply IH; auto.
      * apply Forall_app; auto.
      * exists x. split; [|split].
        -- rewrite nth_error_app2, Nat.sub_diag by lia. reflexivity.
        -- intros k v Hk.
           destruct (Nat.lt_ge_cases k (length pre)) as [L|L].
           ++ rewrite nth_error_app1 in Hk by exact L.
              apply lt_le. eapply le_lt_trans; [eapply Hall; eauto|].
              apply better_lt; auto.
           ++ rewrite nth_error_app2 in Hk by exact L.
              destruct (k - length pre) as [|d]; simpl in Hk.
              ** inversion Hk; subst. apply le_refl; auto.
              ** destruct d; discriminate.
        -- intros k v L Hk. rewrite nth_error_app1 in Hk by exact L.
           eapply le_lt_trans; [eapply Hall; eauto|].
           apply better_lt; auto.
      * rewrite nth_error_app2, Nat.sub_diag by lia. reflexivity.
    + assert (Lb : best_idx < length pre).
      { apply nth_error_Some. congruence. }
      apply IH; auto.
      * apply Forall_app; auto.
      * exists best. split; [|split].
        -- rewrite nth_error_app1 by exact Lb. exact Hn.
        -- intros k v Hk.
           destruct (Nat.lt_ge_cases k (length pre)) as [L|L].
           ++ rewrite nth_error_app1 in Hk by exact L. eapply Hall; eauto.
           ++ rewrite nth_error_app2 in Hk by exact L.
              destruct (k - length pre) as [|d]; simpl in Hk.
              ** inversion Hk; subst. apply worse_le; auto.
              ** destruct d; discriminate.
        -- intros k v L Hk.
           rewrite nth_error_app1 in Hk by lia. eapply Hbefore; eauto.
      * rewrite nth_error_app1 by exact Lb. exact Hn.
Qed.

Lemma arg_scan_from_head (x : float) (rest : list float) :
  Forall not_nan (x :: rest) ->
  first_best le lt (x :: rest) (arg_scan better rest 1 0 x).
Proof.
  intros H. inversion H as [|? ? Hx Hrest]; subst.
  apply (arg_scan_first_best rest [x] 0 x); auto.
  exists x. split; [reflexivity|]. split.
  - intros [|[|k]] v Hk; simpl in Hk; try discriminate.
    inversion Hk; subst. apply le_refl; auto.
  - intros k v L. lia.
Qed.
End ArgScan.

Lemma fill_nan_without_nan (fill : float) (s : list float) :
  Forall not_nan s -> fill_nan fill s = s.
Proof.
  unfold fill_nan. induction 1 as [|x s Hx Hs IH]; cbn [map].
  - reflexivity.
  - unfold not_nan in Hx. rewrite Hx, IH. reflexivity.
Qed.

Lemma np_argmax_first_max (x : float) (rest : list float) :
  Forall not_nan (x :: rest) ->
  exists b, np_argmax (x :: rest) = Ok b /\ first_max (x :: rest) b.
Proof.
  intros H. unfold np_argmax. rewrite fill_nan_without_nan by exact H.
  assert (Hx : is_nan x = false) by (inversion H; assumption).
  cbn [forallb]. rewrite Hx. cbn [andb].
  eexists; split; [reflexivity|].
  apply (arg_scan_from_head (fun y best => PrimFloat.ltb best y)
           PrimFloat.leb PrimFloat.ltb); auto.
  - apply leb_refl.
  - intros y b Hy Hb E. apply ltb_false_leb; auto.
  - apply leb_ltb_trans.
  - apply ltb_leb.
Qed.

Lemma np_argmin_first_min (x : float) (rest : list float) :
  Forall not_nan (x :: rest) ->
  exists b, np_argmin (x :: rest) = Ok b /\ first_min (x :: rest) b.
Proof.
  intros H. unfold np_argmin. rewrite fill_nan_without_nan by exact H.
  assert (Hx : is_nan x = false) by (inversion H; assumption).
  cbn [forallb]. rewrite Hx. cbn [andb].
  eexists; split; [reflexivity|].
  apply (arg_scan_from_head (fun y best => PrimFloat.ltb y best)
           (fun a b => PrimFloat.leb b a) (fun a b => PrimFloat.ltb b a)); auto.
  - apply leb_refl.
  - intros y b Hy Hb E. apply ltb_false_leb; auto.
  - intros a b c H1 H2. eapply ltb_leb_trans; eauto.
  - intros a b. apply ltb_leb.
Qed.

(** ** The smoother *)

Lemma windows_length (w : nat) (l : list float) :
  1 <= w -> length (windows w l) = length l + 1 - w.
Proof.
  intros Hw. induction l as [|x l IH]; [cbn [windows length]; lia|].
  cbn [windows]. destruct (Nat.leb_spec w (length (x :: l))) as [L|L].
  - cbn [length] in *. rewrite IH. lia.
  - cbn [length] in *. lia.
Qed.

Lemma pad_nearest_length (h : nat) (x : list float) :
  length (pad_nearest h x) = h + length x + h.
Proof.
  unfold pad_nearest. rewrite !length_app, !repeat_length. lia.
Qed.

(** For an odd window no longer than the input, the filter returns as many
    values as it is given. *)
Lemma savgol_filter_length (x : list float) (window_length polyorder : nat) :
  Nat.odd window_length = true -> window_length <= length x ->
  exists y, savgol_filter x window_length polyorder = Ok y /\ length y = length x.
Proof.
  intros Hodd Hlen. unfold savgol_filter.
  destruct (Nat.ltb_spec (length x) window_length) as [L|L]; [lia|].
  eexists; split; [reflexivity|].
  rewrite length_map, windows_length, pad_nearest_length.
  - pose proof (Nat.div_mod_eq window_length 2) as D.
    assert (window_length mod 2 = 1) as M.
    { rewrite <- Nat.bit0_mod, Nat.bit0_odd, Hodd. reflexivity. }
    lia.
  - destruct window_length; [discriminate | lia].
Qed.

Lemma savgol_filter_short (x : list float) (window_length polyorder : nat) :
  length x < window_length ->
  savgol_filter x window_length polyorder = Raise window_too_long.
Proof.
  intros H. unfold savgol_filter.
  destruct (Nat.ltb_spec (length x) window_length) as [L|L]; [reflexivity | lia].
Qed.

Lemma slice_length {A : Type} (l : list A) (start stop : nat) :
  length (slice l start stop) <= stop - start.
Proof. unfold slice. apply firstn_le_length. Qed.

(** ** Loops that write to the page *)

(** When each turn either succeeds or raises [e], and some turn raises [e]
    whatever the world, the loop raises [e]. *)
Lemma for_eachM_raises {I : Type} (body : I -> M unit) (e : exn) (items : list I) :
  (forall i w, In i items ->
     (exists w', body i w = Ok (tt, w')) \/ body i w = Raise e) ->
  (exists i, In i items /\ forall w, body i w = Raise e) ->
  forall w, for_eachM body items w = Raise e.
Proof.
  induction items as [|i items IH]; intros Hall [i0 [Hin Hr]] w.
  - destruct Hin.
  - cbn [for_eachM]. unfold bind.
    destruct (Hall i w (or_introl eq_refl)) as [[w' E]|E]; rewrite E; [|reflexivity].
    destruct Hin as [->|Hin]; [rewrite Hr in E; discriminate|].
    apply IH.
    + intros j a Hj. apply Hall. right. exact Hj.
    + exists i0. auto.
Qed.


(* ================================================================= *)
(** * The claims about the cycle segmenter *)

(** C1 (the code departs from it on the empty sequence).  The claim asks
    that for every potential sequence the segmenter returns segments tiling
    [[0, len)]; for the empty sequence that is the empty list, which is
    also what the specification's scan gives.  The code reads
    [potential[0]] first and raises [IndexError] there, also when reached
    from [plot_single_cv] with auto-split on a file whose [x] and [y]
    columns have no rows. *)
Theorem split_cycles_empty_raises :
  (forall tol, split_cycles_by_return_to_start [] tol = Raise IndexError)
  /\ (forall tol min_length, segment_spec [] tol min_length = [])
  /\ (forall st label smooth mark_peaks w,
        plot_single_cv st header_only label smooth mark_peaks true w
        = Raise IndexError).
Proof.
  split; [|split].
  - intros tol. reflexivity.
  - intros tol min_length. reflexivity.
  - intros st label smooth mark_peaks w. reflexivity.
Qed.

(** On every sequence with at least one point the property of C1 holds:
    the segmenter returns, and what it returns partitions [[0, len)]. *)
Lemma split_cycles_partitions_nonempty (potential : list float) (tol : float) :
  potential <> [] ->
  exists segs,
    split_cycles_by_return_to_start potential tol = Ok segs
    /\ partitions segs (length potential).
Proof.
  destruct potential as [|v0 rest]; [congruence|]. intros _.
  apply split_cycles_partitions.
Qed.

(** C2, as the claim states it, fails: the function of the source has no
    [min_length] parameter, and on the example it returns one segment, not
    the three the claim lists. *)
Lemma split_two_sweeps_not_three_segments :
  split_cycles_by_return_to_start two_sweeps tol_default
  <> Ok [(0, 4); (4, 8); (8, 9)].
Proof. vm_compute. discriminate. Qed.

(** C2 (amended).  The segmenter takes the potentials and a tolerance whose
    default is 1e-3; the minimum distance is the constant 10 of line 43,
    not a parameter.  It closes a segment at [i] when
    [|potential[i] - potential[0]| < tol] and [i - start_idx > 10]: on every
    sequence with a first point it returns what the specification's scan
    returns for [min_length = 10].  On [0,1,2,3,0,1,2,3,0] with
    [tol = 1e-3] it returns exactly [(0,9)]; the three segments of the
    claim are what the scan gives for [min_length = 3]. *)
Theorem split_cycles_min_length_is_ten :
  (forall v0 rest tol,
     split_cycles_by_return_to_start (v0 :: rest) tol
     = Ok (segment_spec (v0 :: rest) tol 10))
  /\ tol_default = 0.001%float
  /\ split_cycles_by_return_to_start two_sweeps tol_default = Ok [(0, 9)]
  /\ segment_spec two_sweeps tol_default 3 = [(0, 4); (4, 8); (8, 9)].
Proof.
  split; [exact split_cycles_refines|].
  split; [reflexivity|].
  split; vm_compute; reflexivity.
Qed.

(** C3, as the claim states it, fails on the empty sequence: no list of
    segments is returned at all, neither an empty one nor one segment
    spanning the sequence. *)
Lemma split_empty_returns_no_segments :
  ~ exists segs, split_cycles_by_return_to_start [] tol_default = Ok segs.
Proof. intros [segs H]. vm_compute in H. discriminate. Qed.

(** C3 (amended).  For a single point the segmenter returns exactly
    [(0,1)], and for every sequence with a first point on which the test of
    line 43 never succeeds the result is the one segment [(0, len)]. *)
Theorem split_single_point_and_no_return :
  (forall x tol, split_cycles_by_return_to_start [x] tol = Ok [(0, 1)])
  /\ (forall v0 rest tol,
        (forall k x, nth_error rest k = Some x ->
           returns_to_start x v0 tol (S k) 0 = false) ->
        split_cycles_by_return_to_start (v0 :: rest) tol
        = Ok [(0, S (length rest))]).
Proof.
  split.
  - intros x tol. reflexivity.
  - intros v0 rest tol H. rewrite split_cycles_refines.
    unfold segment_spec. rewrite (segment_scan_no_return v0 tol rest 1 H).
    reflexivity.
Qed.

Lemma split_single_point_and_no_return_witness :
  split_cycles_by_return_to_start [5; 4; 5]%float tol_default = Ok [(0, 3)].
Proof.
  apply (proj2 split_single_point_and_no_return 5%float [4; 5]%float tol_default).
  intros k x H.
  destruct k as [|[|k]]; simpl in H.
  - inversion H; subst. vm_compute. reflexivity.
  - inversion H; subst. vm_compute. reflexivity.
  - destruct k; discriminate.
Defined.

(** C10.  For every non-empty potential sequence the segmenter returns,
    every segment it returns is non-empty, and every segment but the last
    is longer than 10. *)
Theorem split_cycles_segment_lengths (potential : list float) (tol : float) :
  potential <> [] ->
  exists segs,
    split_cycles_by_return_to_start potential tol = Ok segs
    /\ (forall sg, In sg segs -> fst sg < snd sg)
    /\ (forall j sg, nth_error segs j = Some sg -> S j < length segs ->
          fst sg + 10 < snd sg).
Proof.
  destruct potential as [|v0 rest]; [congruence|]. intros _.
  destruct (split_cycles_shape v0 rest tol)
    as [segments [start_idx [E [Hc [Hlt Hlong]]]]].
  eexists; split; [exact E|]. split.
  - intros sg Hin. apply in_app_or in Hin as [Hin|[<-|[]]]; [|exact Hlt].
    apply In_nth_error in Hin as [j Hj].
    destruct (chain_bounds _ _ _ _ _ Hc Hj) as [_ [B _]]. exact B.
  - intros j sg Hj Hlast. rewrite length_app in Hlast. cbn [length] in Hlast.
    rewrite nth_error_app1 in Hj by lia.
    rewrite Forall_forall in Hlong.
    apply nth_error_In, Hlong in Hj. unfold long_enough in Hj. lia.
Qed.

Lemma split_cycles_segment_lengths_witness :
  exists segs,
    split_cycles_by_return_to_start returning_sweep tol_default = Ok segs
    /\ (forall sg, In sg segs -> fst sg < snd sg)
    /\ (forall j sg, nth_error segs j = Some sg -> S j < length segs ->
          fst sg + 10 < snd sg).
Proof.
  apply (split_cycles_segment_lengths returning_sweep tol_default). discriminate.
Defined.

Example split_returning_sweep :
  split_cycles_by_return_to_start returning_sweep tol_default
  = Ok [(0, 11); (11, 13)].
Proof. vm_compute. reflexivity. Qed.


(* ================================================================= *)
(** * The loader and the plot composers *)

Lemma read_cv_data_frame (f : UploadedFile) (df : DataFrame) (w : world) :
  next_read w f = Ok df ->
  read_cv_data f w
  = Ok ((col_x df, col_y df,
         first_unit (col_x_unit df) "V", first_unit (col_y_unit df) "A"),
        read_once w f).
Proof.
  intros H. unfold read_cv_data, bind, pd_read_csv. rewrite H. reflexivity.
Qed.

Lemma read_cv_data_empty (f : UploadedFile) (w : world) :
  next_read w f = Raise EmptyDataError ->
  read_cv_data f w
  = Ok ((None, None, "V"%string, "A"%string),
        warned (read_once w f) (empty_file_warning f)).
Proof.
  intros H. unfold read_cv_data, bind, pd_read_csv. rewrite H. reflexivity.
Qed.

(** The loader reads its file once, draws nothing, and shows at most the
    warning about the file it is given; what it returns is decided by that
    one read. *)
Lemma read_cv_data_effect (f : UploadedFile) (w w' : world) (r : loaded) :
  read_cv_data f w = Ok (r, w') ->
  ax_lines w' = ax_lines w
  /\ file_reads w' = file_reads w ++ [file_id f]
  /\ (st_warnings w' = st_warnings w
      \/ st_warnings w' = st_warnings w ++ [empty_file_warning f])
  /\ match r with
     | (Some _, Some _, x_unit, y_unit) =>
         (x_unit, y_unit) = units_of_outcome (next_read w f)
     | _ => units_of_outcome (next_read w f) = ("V"%string, "A"%string)
     end.
Proof.
  unfold read_cv_data, bind, pd_read_csv.
  destruct (next_read w f) as [df|[]]; intros H; inversion H; subst;
    cbn [read_once warned ax_lines file_reads st_warnings units_of_outcome];
    repeat split; auto.
  destruct (col_x df); destruct (col_y df); reflexivity.
Qed.

Lemma select_cycles_in_range (st : widgets) (segments : list segment)
    (lbl : string) (i : nat) :
  In i (select_cycles st segments lbl) -> i < length segments.
Proof.
  unfold select_cycles, enumerate. intros H.
  apply in_map_iff in H as [[i' c] [<- H]].
  apply filter_In in H as [H _]. apply in_combine_l in H.
  apply in_seq in H. rewrite length_map in H. unfold range in H.
  rewrite length_seq in H. cbn [fst]. lia.
Qed.

Lemma savgol_filter_outcome (x : list float) (window_length polyorder : nat) :
  (exists y, savgol_filter x window_length polyorder = Ok y)
  \/ savgol_filter x window_length polyorder = Raise window_too_long.
Proof.
  unfold savgol_filter. destruct (length x <? window_length).
  - right. reflexivity.
  - left. eexists. reflexivity.
Qed.

Lemma plot_smoothed_outcome (x y : list float) (lbl : string) (c : color)
    (w : world) :
  (exists w', plot_smoothed x y lbl c w = Ok (tt, w'))
  \/ plot_smoothed x y lbl c w = Raise window_too_long.
Proof.
  unfold plot_smoothed, bind, lift.
  destruct (savgol_filter_outcome x 11 3) as [[x' ->]| ->]; [|right; reflexivity].
  destruct (savgol_filter_outcome y 11 3) as [[y' ->]| ->]; [|right; reflexivity].
  left. eexists. reflexivity.
Qed.

Lemma plot_smoothed_short (x y : list float) (lbl : string) (c : color)
    (w : world) :
  length x < 11 -> plot_smoothed x y lbl c w = Raise window_too_long.
Proof.
  intros H. unfold plot_smoothed, bind, lift.
  rewrite savgol_filter_short by exact H. reflexivity.
Qed.

Lemma single_cycle_body_outcome (title : string) (potential current : list float)
    (segments : list segment) (smooth : bool) (i : nat) (w : world) :
  i < length segments ->
  (exists w', single_cycle_body title potential current segments smooth i w
              = Ok (tt, w'))
  \/ single_cycle_body title potential current segments smooth i w
     = Raise window_too_long.
Proof.
  intros Hi. unfold single_cycle_body, segment_at.
  destruct (nth_error segments i) as [[start stop]|] eqn:E;
    [|apply nth_error_None in E; lia].
  unfold bind at 1. unfold lift at 1. unfold bind at 1. unfold ax_plot at 1.
  destruct smooth.
  - apply plot_smoothed_outcome.
  - left. eexists. reflexivity.
Qed.

Lemma single_cycle_body_short (title : string) (potential current : list float)
    (segments : list segment) (i start stop : nat) (w : world) :
  nth_error segments i = Some (start, stop) -> stop - start < 11 ->
  single_cycle_body title potential current segments true i w
  = Raise window_too_long.
Proof.
  intros E Hshort. unfold single_cycle_body, segment_at. rewrite E.
  unfold bind at 1. unfold lift at 1. unfold bind at 1. unfold ax_plot at 1.
  apply plot_smoothed_short.
  pose proof (slice_length potential start stop). lia.
Qed.

(** C4.  The smoother, called with window 11 and order 3, raises an error
    when its input has fewer than 11 values and otherwise returns as many
    values as it is given.  The callers neither guard nor catch: with
    smoothing on, [plot_single_cv] raises that error when the whole curve
    is shorter than the window (lines 81-83), and when a selected cycle is
    (lines 75-77); nothing is truncated or skipped. *)
Theorem smoother_fails_on_short_input_and_keeps_length :
  (forall x, length x < 11 -> savgol_filter x 11 3 = Raise window_too_long)
  /\ (forall x, 11 <= length x ->
        exists y, savgol_filter x 11 3 = Ok y /\ length y = length x)
  /\ (forall st f df potential current label mark_peaks w,
        next_read w f = Ok df ->
        col_x df = Some potential -> col_y df = Some current ->
        length potential < 11 ->
        plot_single_cv st f label true mark_peaks false w = Raise window_too_long)
  /\ (forall st f df potential current segments i start stop label mark_peaks w,
        next_read w f = Ok df ->
        col_x df = Some potential -> col_y df = Some current ->
        split_cycles_by_return_to_start potential tol_default = Ok segments ->
        In i (select_cycles st segments "选择拆分出来的圈数") ->
        nth_error segments i = Some (start, stop) ->
        stop - start < 11 ->
        plot_single_cv st f label true mark_peaks true w = Raise window_too_long).
Proof.
  split; [|split; [|split]].
  - intros x H. apply savgol_filter_short. exact H.
  - intros x H. apply savgol_filter_length; [reflexivity | exact H].
  - intros st f df potential current label mark_peaks w Hf Hx Hy Hlen.
    unfold plot_single_cv. unfold bind at 1.
    rewrite (read_cv_data_frame f df w Hf), Hx, Hy.
    unfold bind at 1. unfold subplots at 1.
    unfold bind at 1. unfold bind at 1. unfold ax_plot at 1.
    rewrite plot_smoothed_short by exact Hlen. reflexivity.
  - intros st f df potential current segments i start stop label mark_peaks w
      Hf Hx Hy Hseg Hsel Hi Hshort.
    unfold plot_single_cv. unfold bind at 1.
    rewrite (read_cv_data_frame f df w Hf), Hx, Hy.
    unfold bind at 1. unfold subplots at 1.
    unfold bind at 1. unfold bind at 1. rewrite Hseg. unfold lift at 1.
    rewrite for_eachM_raises with (e := window_too_long); [reflexivity| |].
    + intros j a Hj. apply single_cycle_body_outcome.
      eapply select_cycles_in_range; eauto.
    + exists i. split; [exact Hsel|].
      intros a. eapply single_cycle_body_short; eauto.
Qed.

Lemma smoother_fails_on_short_input_and_keeps_length_witness :
  savgol_filter [1; 2; 3]%float 11 3 = Raise window_too_long
  /\ (exists y, savgol_filter returning_sweep 11 3 = Ok y
                /\ length y = length returning_sweep)
  /\ plot_single_cv select_all short_file None true false false fresh
     = Raise window_too_long
  /\ plot_single_cv select_all sweep_file None true false true fresh
     = Raise window_too_long.
Proof.
  destruct smoother_fails_on_short_input_and_keeps_length as [H1 [H2 [H3 H4]]].
  split; [|split; [|split]].
  - apply H1. simpl. lia.
  - apply H2. simpl. lia.
  - apply (H3 select_all short_file
              (frame_of [0; 1; 2]%float [1; 5; -3]%float None None)
              [0; 1; 2]%float [1; 5; -3]%float);
      try reflexivity. simpl. lia.
  - apply (H4 select_all sweep_file
              (frame_of returning_sweep returning_sweep None None)
              returning_sweep returning_sweep [(0, 11); (11, 13)] 1 11 13);
      try reflexivity.
    + vm_compute. right. left. reflexivity.
    + simpl. lia.
Defined.

Lemma enumerate_from_app {A : Type} (l1 l2 : list A) :
  forall a,
    enumerate_from a (l1 ++ l2)
    = enumerate_from a l1 ++ enumerate_from (a + length l1) l2.
Proof.
  unfold enumerate_from.
  induction l1 as [|x l1 IH]; intros a; cbn [app length seq combine].
  - rewrite Nat.add_0_r. reflexivity.
  - rewrite IH. replace (S a + length l1) with (a + S (length l1)) by lia.
    reflexivity.
Qed.

Lemma enumerate_from_nth {A : Type} (l : list A) :
  forall a i x, In (i, x) (enumerate_from a l) ->
    a <= i /\ nth_error l (i - a) = Some x.
Proof.
  unfold enumerate_from.
  induction l as [|y l IH]; intros a i x H; cbn [length seq combine] in H.
  - destruct H.
  - destruct H as [H|H].
    + inversion H; subst. rewrite Nat.sub_diag. auto.
    + apply IH in H as [L E]. split; [lia|].
      replace (i - a) with (S (i - S a)) by lia. exact E.
Qed.

Lemma enumerate_nth {A : Type} (l : list A) (i : nat) (x : A) :
  In (i, x) (enumerate l) -> nth_error l i = Some x.
Proof.
  intros H. apply (enumerate_from_nth l 0) in H as [_ H].
  rewrite Nat.sub_0_r in H. exact H.
Qed.

Lemma enumerate_from_snd {A : Type} (l : list A) :
  forall a, map snd (enumerate_from a l) = l.
Proof.
  unfold enumerate_from.
  induction l as [|x l IH]; intros a; cbn [length seq combine map snd].
  - reflexivity.
  - rewrite IH. reflexivity.
Qed.

(** A file whose frame lacks [x] or [y] is read and then passed over by
    the overlay loop: no line, no warning. *)
Lemma multi_file_body_missing (st : widgets) (smooth : bool)
    (selected_files : option (list string)) (auto_split : bool)
    (i : nat) (f : UploadedFile) (df : DataFrame) (w : world) :
  next_read w f = Ok df -> col_x df = None \/ col_y df = None ->
  multi_file_body st smooth selected_files auto_split (i, f) w
  = Ok (tt, if deselected selected_files f then w else read_once w f).
Proof.
  intros Hf Hmiss. unfold multi_file_body.
  destruct (deselected selected_files f); [reflexivity|].
  unfold bind. rewrite (read_cv_data_frame f df w Hf).
  destruct Hmiss as [-> | ->]; [reflexivity|].
  destruct (col_x df); reflexivity.
Qed.

(** A file pandas reports as empty is warned about, when it is loaded, and
    draws nothing. *)
Lemma multi_file_body_empty (st : widgets) (smooth : bool)
    (selected_files : option (list string)) (auto_split : bool)
    (i : nat) (f : UploadedFile) (w : world) :
  next_read w f = Raise EmptyDataError ->
  multi_file_body st smooth selected_files auto_split (i, f) w
  = Ok (tt, if deselected selected_files f then w
            else warned (read_once w f) (empty_file_warning f)).
Proof.
  intros Hf. unfold multi_file_body.
  destruct (deselected selected_files f); [reflexivity|].
  unfold bind. rewrite (read_cv_data_empty f w Hf). reflexivity.
Qed.

Lemma plot_single_cv_missing (st : widgets) (f : UploadedFile)
    (label : option string) (smooth mark_peaks auto_split : bool) (w w1 : world)
    (potential current : option (list float)) (x_unit y_unit : string) :
  read_cv_data f w = Ok ((potential, current, x_unit, y_unit), w1) ->
  potential = None \/ current = None ->
  plot_single_cv st f label smooth mark_peaks auto_split w = Raise missing_columns.
Proof.
  intros Hr Hmiss. unfold plot_single_cv. unfold bind at 1. rewrite Hr.
  destruct Hmiss as [-> | ->]; [reflexivity|].
  destruct potential; reflexivity.
Qed.

(* ================================================================= *)
(** * The claims about loading *)

(** C5, as the claim states it, fails in single-file mode: the loader
    gives [(None, None, "V", "A")] for the empty file, and the render then
    raises instead of skipping. *)
Lemma empty_file_aborts_single_render :
  read_cv_data empty_file fresh
  = Ok ((None, None, "V"%string, "A"%string),
        warned (read_once fresh empty_file) (empty_file_warning empty_file))
  /\ ~ exists fig w',
         plot_single_cv select_all empty_file None false false false fresh
         = Ok (fig, w').
Proof.
  split; [reflexivity|].
  intros [fig [w' H]]. vm_compute in H. discriminate.
Qed.

(** A file with a header and no data row is not reported as empty by
    pandas: the loader returns its empty columns, not [None]. *)
Example header_only_is_loaded :
  read_cv_data header_only fresh
  = Ok ((Some [], Some [], "V"%string, "A"%string), read_once fresh header_only).
Proof. reflexivity. Qed.

(** C5 (amended).  For a file in which pandas finds nothing to parse
    ([EmptyDataError]) the loader shows a warning and yields
    [(None, None, "V", "A")]; the overlay loop then draws nothing for it
    and goes on with the remaining files, while [plot_single_cv] raises
    [ValueError].  A frame without [x_unit] and [y_unit] columns is
    loaded with the units [("V", "A")]. *)
Theorem empty_file_warned_then_skipped_or_fatal :
  (forall f w, next_read w f = Raise EmptyDataError ->
     read_cv_data f w
     = Ok ((None, None, "V"%string, "A"%string),
           warned (read_once w f) (empty_file_warning f))
     /\ (forall st smooth selected_files auto_split i rest,
           for_eachM (multi_file_body st smooth selected_files auto_split)
                     ((i, f) :: rest) w
           = for_eachM (multi_file_body st smooth selected_files auto_split)
                       rest
                       (if deselected selected_files f then w
                        else warned (read_once w f) (empty_file_warning f)))
     /\ (forall st label smooth mark_peaks auto_split,
           plot_single_cv st f label smooth mark_peaks auto_split w
           = Raise missing_columns))
  /\ (forall f df w,
        next_read w f = Ok df -> col_x_unit df = None -> col_y_unit df = None ->
        read_cv_data f w
        = Ok ((col_x df, col_y df, "V"%string, "A"%string), read_once w f)).
Proof.
  split.
  - intros f w Hf. split; [|split].
    + apply read_cv_data_empty. exact Hf.
    + intros st smooth selected_files auto_split i rest.
      cbn [for_eachM]. unfold bind at 1.
      rewrite (multi_file_body_empty _ _ _ _ _ _ _ Hf). reflexivity.
    + intros st label smooth mark_peaks auto_split.
      eapply plot_single_cv_missing.
      * apply read_cv_data_empty. exact Hf.
      * left. reflexivity.
  - intros f df w Hf Hx Hy. rewrite (read_cv_data_frame f df w Hf), Hx, Hy.
    reflexivity.
Qed.

Lemma empty_file_warned_then_skipped_or_fatal_witness :
  for_eachM (multi_file_body select_all false None false)
            [(0, empty_file); (1, short_file)] fresh
  = for_eachM (multi_file_body select_all false None false)
              [(1, short_file)]
              (warned (read_once fresh empty_file) (empty_file_warning empty_file))
  /\ read_cv_data short_file fresh
     = Ok ((Some [0; 1; 2]%float, Some [1; 5; -3]%float,
            "V"%string, "A"%string), read_once fresh short_file).
Proof.
  destruct empty_file_warned_then_skipped_or_fatal as [H1 H2]. split.
  - destruct (H1 empty_file fresh eq_refl) as [_ [H _]].
    exact (H select_all false None false 0 [(1, short_file)]).
  - exact (H2 short_file _ fresh eq_refl eq_refl eq_refl).
Defined.

(* ================================================================= *)
(** * The claim about the peak locator *)

Lemma mark_peak_lines_effect (potential current : list float)
    (ox red : nat) (px cx pr cr : float) (w : world) :
  locate_peaks current = Ok (ox, red) ->
  nth_error potential ox = Some px -> nth_error current ox = Some cx ->
  nth_error potential red = Some pr -> nth_error current red = Some cr ->
  mark_peak_lines potential current w
  = Ok (tt, drawn (drawn w (marker_line px cx "ro" "Ox peak"))
                  (marker_line pr cr "bo" "Red peak")).
Proof.
  unfold locate_peaks, rbind. intros Hl Hpx Hcx Hpr Hcr.
  destruct (np_argmax current) as [ox'|] eqn:Eo; [|discriminate].
  destruct (np_argmin current) as [red'|] eqn:Er; [|discriminate].
  inversion Hl; subst ox' red'.
  unfold mark_peak_lines, bind, lift, series_at.
  rewrite Eo, Er, Hpx, Hcx. unfold ax_plot at 1.
  cbn [ax_lines st_warnings]. rewrite Hpr, Hcr. reflexivity.
Qed.



Example locate_peaks_ties :
  locate_peaks [1; 5; 5; -3; -3]%float = Ok (1, 3).
Proof. vm_compute. reflexivity. Qed.

(* ================================================================= *)
(** * The claims about the overlay *)

Lemma bind_ok {A B : Type} (m : M A) (k : A -> M B) (w w' : world) (b : B) :
  bind m k w = Ok (b, w') ->
  exists a w1, m w = Ok (a, w1) /\ k a w1 = Ok (b, w').
Proof.
  unfold bind. destruct (m w) as [[a w1]|e]; [|discriminate].
  intros H. exists a, w1. auto.
Qed.

Lemma lift_ok {A : Type} (r : result A) (w w' : world) (a : A) :
  lift r w = Ok (a, w') -> r = Ok a /\ w' = w.
Proof.
  unfold lift. destruct r; [|discriminate]. intros H. inversion H. auto.
Qed.

Lemma plot_smoothed_effect (x y : list float) (lbl : string) (c : color)
    (w w' : world) :
  plot_smoothed x y lbl c w = Ok (tt, w') ->
  exists xs ys, w' = drawn w (plain_line xs ys lbl c None).
Proof.
  unfold plot_smoothed. intros H.
  apply bind_ok in H as [xs [w1 [H1 H]]]. apply lift_ok in H1 as [_ ->].
  apply bind_ok in H as [ys [w2 [H2 H]]]. apply lift_ok in H2 as [_ ->].
  exists xs, ys. unfold ax_plot in H. inversion H. reflexivity.
Qed.

(** One turn of the inner loop of the overlay draws one or two lines, all
    of cycle [j] of file [i] and in the colour [(i + j) mod 10], shows no
    warning and reads no file. *)
Lemma multi_cycle_body_effect (i : nat) (f : UploadedFile)
    (potential current : list float) (segments : list segment) (smooth : bool)
    (j : nat) (w w' : world) :
  multi_cycle_body i f potential current segments smooth j w = Ok (tt, w') ->
  st_warnings w' = st_warnings w
  /\ file_reads w' = file_reads w
  /\ exists new,
       ax_lines w' = ax_lines w ++ new /\ new <> []
       /\ Forall (cycle_colored i f j) new.
Proof.
  unfold multi_cycle_body. intros H.
  apply bind_ok in H as [[start stop] [w1 [H1 H]]]. apply lift_ok in H1 as [_ ->].
  apply bind_ok in H as [[] [w2 [H2 H]]].
  unfold ax_plot in H2. inversion H2; subst w2; clear H2.
  destruct smooth.
  - apply plot_smoothed_effect in H as [xs [ys ->]].
    split; [reflexivity|]. split; [reflexivity|]. cbn [drawn ax_lines].
    eexists. split; [rewrite <- app_assoc; reflexivity|].
    split; [discriminate|].
    constructor; [|constructor; [|constructor]].
    + split; [left; reflexivity | reflexivity].
    + split; [right; reflexivity | reflexivity].
  - unfold ret in H. inversion H; subst w'.
    split; [reflexivity|]. split; [reflexivity|]. cbn [drawn ax_lines].
    eexists. split; [reflexivity|]. split; [discriminate|].
    constructor; [|constructor].
    split; [left; reflexivity | reflexivity].
Qed.

Lemma for_eachM_cycles_effect (i : nat) (f : UploadedFile)
    (potential current : list float) (segments : list segment) (smooth : bool)
    (selected : list nat) :
  forall w w',
    for_eachM (multi_cycle_body i f potential current segments smooth)
              selected w = Ok (tt, w') ->
    st_warnings w' = st_warnings w
    /\ file_reads w' = file_reads w
    /\ exists new,
         ax_lines w' = ax_lines w ++ new
         /\ Forall (fun l => exists j, In j selected /\ cycle_colored i f j l) new.
Proof.
  induction selected as [|j selected IH]; intros w w' H; cbn [for_eachM] in H.
  - unfold ret in H. inversion H; subst. split; [reflexivity|].
    split; [reflexivity|]. exists []. rewrite app_nil_r. auto.
  - apply bind_ok in H as [[] [w1 [H1 H]]].
    apply multi_cycle_body_effect in H1 as [W1 [R1 [new1 [L1 [_ F1]]]]].
    apply IH in H as [W2 [R2 [new2 [L2 F2]]]].
    split; [congruence|]. split; [congruence|].
    exists (new1 ++ new2). split; [rewrite L2, L1, app_assoc; reflexivity|].
    apply Forall_app. split.
    + eapply Forall_impl; [|exact F1]. intros l Hl. exists j.
      split; [left; reflexivity | exact Hl].
    + eapply Forall_impl; [|exact F2]. intros l [j' [Hj Hl]].
      exists j'. split; [right; exact Hj | exact Hl].
Qed.

(** One turn of the overlay loop, for the file [f] at position [i]: the
    file is read once unless it is passed over, the only warning the turn
    may show is the one about [f] being empty, and with auto-split on every
    line it draws is a cycle line of [f] in the colour of its position and
    cycle. *)
Lemma multi_file_body_effect (st : widgets) (smooth : bool)
    (selected_files : option (list string)) (auto_split : bool)
    (i : nat) (f : UploadedFile) (w w' : world) :
  multi_file_body st smooth selected_files auto_split (i, f) w = Ok (tt, w') ->
  (st_warnings w' = st_warnings w
   \/ st_warnings w' = st_warnings w ++ [empty_file_warning f])
  /\ file_reads w' = file_reads w ++ map file_id (loaded_files selected_files [f])
  /\ exists new,
       ax_lines w' = ax_lines w ++ new
       /\ (auto_split = true ->
           Forall (fun l => exists j, cycle_colored i f j l) new).
Proof.
  unfold multi_file_body, loaded_files. cbn [filter]. intros H.
  destruct (deselected selected_files f); cbn [negb map].
  { unfold ret in H. inversion H; subst. split; [left; reflexivity|].
    split; [rewrite app_nil_r; reflexivity|].
    exists []. rewrite app_nil_r. auto. }
  apply bind_ok in H as [[[[potential current] x_unit] y_unit] [w1 [H1 H]]].
  apply read_cv_data_effect in H1 as [L1 [R1 [W1 _]]].
  assert (Hsame : forall w2, Ok (tt, w1) = Ok (tt, w2) ->
            (st_warnings w2 = st_warnings w
             \/ st_warnings w2 = st_warnings w ++ [empty_file_warning f])
            /\ file_reads w2 = file_reads w ++ [file_id f]
            /\ exists new, ax_lines w2 = ax_lines w ++ new
                 /\ (auto_split = true ->
                     Forall (fun l => exists j, cycle_colored i f j l) new)).
  { intros w2 E. inversion E; subst w2. split; [exact W1|]. split; [exact R1|].
    exists []. rewrite app_nil_r. auto. }
  destruct potential as [potential|]; [|apply Hsame; exact H].
  destruct current as [current|]; [|apply Hsame; exact H].
  destruct auto_split.
  - apply bind_ok in H as [segments [w2 [H2 H]]]. apply lift_ok in H2 as [_ ->].
    apply for_eachM_cycles_effect in H as [W [R [new [L F]]]].
    split; [rewrite W; exact W1|]. split; [rewrite R; exact R1|].
    exists new. split; [rewrite L, L1; reflexivity|].
    intros _. eapply Forall_impl; [|exact F].
    intros l [j [_ Hl]]. exists j. exact Hl.
  - apply bind_ok in H as [[] [w2 [H2 H]]].
    unfold ax_plot in H2. inversion H2; subst w2; clear H2.
    destruct smooth.
    + apply plot_smoothed_effect in H as [xs [ys ->]].
      split; [exact W1|]. split; [exact R1|]. cbn [drawn ax_lines].
      eexists. split; [rewrite L1, <- app_assoc; reflexivity | discriminate].
    + unfold ret in H. inversion H; subst w'.
      split; [exact W1|]. split; [exact R1|]. cbn [drawn ax_lines].
      eexists. split; [rewrite L1; reflexivity | discriminate].
Qed.

Lemma loaded_files_cons (selected_files : option (list string))
    (f : UploadedFile) (files : list UploadedFile) :
  loaded_files selected_files (f :: files)
  = loaded_files selected_files [f] ++ loaded_files selected_files files.
Proof.
  unfold loaded_files. cbn [filter].
  destruct (negb (deselected selected_files f)); reflexivity.
Qed.

Lemma overlay_loop_effect (st : widgets) (smooth : bool)
    (selected_files : option (list string)) (auto_split : bool)
    (files : list UploadedFile) (items : list (nat * UploadedFile)) :
  (forall i f, In (i, f) items -> nth_error files i = Some f) ->
  forall w w',
    for_eachM (multi_file_body st smooth selected_files auto_split) items w
    = Ok (tt, w') ->
    (exists ws, st_warnings w' = st_warnings w ++ ws
                /\ only_empty_file_warnings files ws)
    /\ file_reads w'
       = file_reads w ++ map file_id (loaded_files selected_files (map snd items))
    /\ exists new,
         ax_lines w' = ax_lines w ++ new
         /\ (auto_split = true -> Forall (overlay_cycle_line files) new).
Proof.
  induction items as [|[i f] items IH]; intros Hitems w w' H; cbn [for_eachM] in H.
  - unfold ret in H. inversion H; subst. split; [|split].
    + exists []. rewrite app_nil_r. split; [reflexivity | constructor].
    + cbn. rewrite app_nil_r. reflexivity.
    + exists []. rewrite app_nil_r. split; [reflexivity | constructor].
  - apply bind_ok in H as [[] [w1 [H1 H]]].
    assert (Hf : nth_error files i = Some f) by (apply Hitems; left; reflexivity).
    apply multi_file_body_effect in H1 as [W1 [R1 [new1 [L1 F1]]]].
    apply IH in H as [[ws2 [W2 O2]] [R2 [new2 [L2 F2]]]];
      [|intros i' f' Hin; apply Hitems; right; exact Hin].
    split; [|split].
    + destruct W1 as [W1|W1].
      * exists ws2. split; [congruence | exact O2].
      * exists (empty_file_warning f :: ws2). split.
        -- rewrite W2, W1, <- app_assoc. reflexivity.
        -- constructor; [|exact O2]. exists f. split; [|reflexivity].
           eapply nth_error_In; eauto.
    + cbn [map snd]. rewrite loaded_files_cons, map_app, R2, R1, app_assoc.
      reflexivity.
    + exists (new1 ++ new2). split; [rewrite L2, L1, app_assoc; reflexivity|].
      intros Ha. apply Forall_app. split; [|apply F2; exact Ha].
      eapply Forall_impl; [|apply F1; exact Ha].
      intros l [j Hl]. exists i, f, j. auto.
Qed.

(** Lines 130-135 read the first file of the list once more, draw
    nothing, show at most the warning about that file, and arrive at the
    units of that read. *)
Lemma axis_units_effect (files : list UploadedFile) (w w' : world)
    (u : string * string) :
  axis_units files w = Ok (u, w') ->
  u = axis_units_after files (file_reads w)
  /\ ax_lines w' = ax_lines w
  /\ exists ws, st_warnings w' = st_warnings w ++ ws
                /\ only_empty_file_warnings files ws.
Proof.
  unfold axis_units, axis_units_after.
  destruct files as [|f0 rest].
  - unfold ret. intros H. inversion H; subst. repeat split.
    exists []. rewrite app_nil_r. split; [reflexivity | constructor].
  - intros H.
    apply bind_ok in H as [[[[first_p first_c] x_unit] y_unit] [w1 [H1 H]]].
    apply read_cv_data_effect in H1 as [L1 [_ [W1 U1]]].
    fold (reads_of w f0). fold (next_read w f0).
    assert (Hw : exists ws, st_warnings w1 = st_warnings w ++ ws
                            /\ only_empty_file_warnings (f0 :: rest) ws).
    { destruct W1 as [W1|W1].
      - exists []. rewrite app_nil_r. split; [exact W1 | constructor].
      - eexists. split; [exact W1|].
        constructor; [|constructor]. exists f0. split; [left|]; reflexivity. }
    destruct first_p; [destruct first_c|];
      unfold ret in H; inversion H; subst; auto.
Qed.

(** What [plot_multi_cv] returns, taken apart: the lines of the loop on
    fresh axes, the labels of the units lines 130-135 arrive at after the
    reads of the loop, the warnings of the loop and of lines 130-135. *)
Lemma plot_multi_cv_effect (st : widgets) (files : list UploadedFile)
    (smooth : bool) (selected_files : option (list string)) (auto_split : bool)
    (w w' : world) (fig : figure) :
  plot_multi_cv st files smooth selected_files auto_split w = Ok (fig, w') ->
  (xlabel fig, ylabel fig)
  = (let u := axis_units_after files
                (file_reads w ++ map file_id (loaded_files selected_files files)) in
     ("Potential (" ++ fst u ++ ")", "Current (" ++ snd u ++ ")"))%string
  /\ (exists ws, st_warnings w' = st_warnings w ++ ws
                 /\ only_empty_file_warnings files ws)
  /\ (auto_split = true -> Forall (overlay_cycle_line files) (fig_lines fig)).
Proof.
  unfold plot_multi_cv. intros H.
  apply bind_ok in H as [[] [w1 [H1 H]]].
  unfold subplots in H1. inversion H1; subst w1; clear H1.
  apply bind_ok in H as [[] [w2 [H2 H]]].
  apply overlay_loop_effect with (files := files) in H2
    as [[ws2 [W2 O2]] [R2 [new [L2 F2]]]];
    [|intros i f Hin; apply enumerate_nth; exact Hin].
  cbn [st_warnings ax_lines file_reads app] in W2, R2, L2.
  change (enumerate files) with (enumerate_from 0 files) in R2.
  rewrite enumerate_from_snd in R2.
  apply bind_ok in H as [[x_unit y_unit] [w3 [H3 H]]].
  apply axis_units_effect in H3 as [Hu [L3 [ws3 [W3 O3]]]].
  unfold finish_figure, bind, get_lines, ret in H. inversion H; subst fig w'.
  cbn [xlabel ylabel fig_lines]. rewrite <- R2, <- Hu. cbn [fst snd].
  repeat split.
  - exists (ws2 ++ ws3). split; [rewrite W3, W2, app_assoc; reflexivity|].
    apply Forall_app. split; assumption.
  - intros Ha. rewrite L3, L2. apply F2. exact Ha.
Qed.

(** C8.  The palette has ten colours.  In the overlay with auto-split on,
    the lines drawn for cycle [j] of the file at position [i] (the cycle,
    and its smoothed copy when smoothing is on) have the colour
    [(i + j) mod 10] of the palette, and every line of the figure is such a
    line of some file of the list.  The colour is a function of [i] and
    [j] alone: the page, the axes, the widgets and the data have no part in
    it, so equal inputs give equal colours. *)
Theorem overlay_cycle_colour :
  colors_N = 10
  /\ (forall i f potential current segments smooth j w w',
        multi_cycle_body i f potential current segments smooth j w = Ok (tt, w') ->
        exists new,
          ax_lines w' = ax_lines w ++ new /\ new <> []
          /\ Forall (fun l => is_cycle_line_of f j l
                              /\ line_color l = Some (colors ((i + j) mod colors_N)))
                    new)
  /\ (forall st files smooth selected_files w fig w',
        plot_multi_cv st files smooth selected_files true w = Ok (fig, w') ->
        Forall (overlay_cycle_line files) (fig_lines fig)).
Proof.
  split; [reflexivity|]. split.
  - intros i f potential current segments smooth j w w' H.
    apply multi_cycle_body_effect in H as [_ [_ H]]. exact H.
  - intros st files smooth selected_files w fig w' H.
    apply plot_multi_cv_effect in H as [_ [_ H]]. apply H. reflexivity.
Qed.

Lemma overlay_cycle_colour_witness :
  exists fig w',
    plot_multi_cv select_all [short_file; sweep_file] false None true fresh
    = Ok (fig, w')
    /\ map line_color (fig_lines fig)
       = [Some (Tab10 0); Some (Tab10 1); Some (Tab10 2)]
    /\ Forall (overlay_cycle_line [short_file; sweep_file]) (fig_lines fig).
Proof.
  eexists. eexists.
  split; [vm_compute; reflexivity|].
  split; [reflexivity|].
  destruct overlay_cycle_colour as [_ [_ H]].
  refine (H select_all [short_file; sweep_file] false None fresh _ _ _).
  vm_compute. reflexivity.
Defined.

(* ================================================================= *)
(** * Further properties of the cycle segmenter *)

Lemma scanned_from_earlier (potential : list float) (v0 tol : float)
    (i start_idx : nat) (x : float) (segs : list segment) :
  nth_error potential i = Some x ->
  returns_to_start x v0 tol i start_idx = false ->
  scanned potential v0 tol (S i) start_idx segs ->
  scanned potential v0 tol i start_idx segs.
Proof.
  intros Hx Hno. destruct segs as [|[s e] segs]; [auto|].
  cbn [scanned fst snd]. intros [Hs [[Hend Hfirst] Hrest]].
  split; [exact Hs|]. split; [|exact Hrest]. split; [exact Hend|].
  intros k y Hk Hy. cbn [fst snd] in *.
  destruct (Nat.eq_dec k i) as [->|Hne].
  - rewrite Hx in Hy. inversion Hy; subst. exact Hno.
  - apply (Hfirst k y); [lia | exact Hy].
Qed.

Lemma segment_scan_scanned (v0 tol : float) (rest : list float) :
  forall pre start_idx,
    scanned (pre ++ rest) v0 tol (length pre) start_idx
            (segment_scan v0 tol 10 rest (length pre) start_idx).
Proof.
  induction rest as [|x rest IH]; intros pre start_idx; cbn [segment_scan].
  - destruct (start_idx <? length pre); cbn [scanned]; [|exact I].
    split; [reflexivity|]. split; [|exact I]. split.
    + left. cbn [snd]. rewrite app_nil_r. reflexivity.
    + intros k y Hk. cbn [snd] in Hk. lia.
  - assert (Hx : nth_error (pre ++ x :: rest) (length pre) = Some x).
    { rewrite nth_error_app2, Nat.sub_diag by lia. reflexivity. }
    specialize (IH (pre ++ [x])).
    rewrite <- app_assoc in IH. cbn [app] in IH.
    rewrite length_app in IH. cbn [length] in IH. rewrite Nat.add_1_r in IH.
    fold (returns_to_start x v0 tol (length pre) start_idx).
    destruct (returns_to_start x v0 tol (length pre) start_idx) eqn:E.
    + cbn [scanned fst snd]. split; [reflexivity|]. split; [|apply IH].
      split.
      * right. exists x. cbn [fst snd]. auto.
      * intros k y Hk. cbn [snd] in Hk. lia.
    + eapply scanned_from_earlier; eauto.
Qed.

Lemma split_cycles_scanned (v0 : float) (rest : list float) (tol : float) :
  exists segs,
    split_cycles_by_return_to_start (v0 :: rest) tol = Ok segs
    /\ scanned (v0 :: rest) v0 tol 1 0 segs.
Proof.
  eexists. split; [apply split_cycles_refines|].
  exact (segment_scan_scanned v0 tol rest [v0] 0).
Qed.

Lemma scanned_each (potential : list float) (v0 tol : float)
    (segs : list segment) :
  forall start_idx j sg,
    scanned potential v0 tol (S start_idx) start_idx segs ->
    nth_error segs j = Some sg ->
    ends_at_first_return potential v0 tol (S (fst sg)) sg.
Proof.
  induction segs as [|sg0 segs IH]; intros start_idx j sg H Hj.
  - destruct j; discriminate.
  - cbn [scanned] in H. destruct H as [Hs [Hend Hrest]].
    destruct j as [|j]; cbn [nth_error] in Hj.
    + inversion Hj; subst sg0. rewrite Hs. exact Hend.
    + eapply IH; eauto.
Qed.

Lemma chain_long_enough_length (segs : list segment) :
  forall a b, chain a segs b -> Forall long_enough segs ->
    a + 11 * length segs <= b.
Proof.
  induction segs as [|[s e] segs IH]; intros a b Hc Hl; cbn [chain length] in *.
  - lia.
  - destruct Hc as [Hs [Hse Hc]]. inversion Hl as [|? ? Hlong Hl']; subst.
    apply IH in Hc; [|exact Hl']. unfold long_enough in Hlong.
    cbn [fst snd] in Hlong. lia.
Qed.

Lemma firstn_plus {A : Type} (n m : nat) :
  forall l : list A, firstn (n + m) l = firstn n l ++ firstn m (skipn n l).
Proof.
  induction n as [|n IH]; intros l; [reflexivity|].
  destruct l as [|x l]; cbn [Nat.add firstn skipn app].
  - rewrite firstn_nil. reflexivity.
  - rewrite IH. reflexivity.
Qed.

Lemma slice_app {A : Type} (l : list A) (a e b : nat) :
  a <= e <= b -> slice l a e ++ slice l e b = slice l a b.
Proof.
  intros H. unfold slice.
  replace (b - a) with ((e - a) + (b - e)) by lia.
  rewrite firstn_plus. f_equal.
  rewrite skipn_skipn. replace (e - a + a) with e by lia. reflexivity.
Qed.

Lemma slice_all {A : Type} (l : list A) : slice l 0 (length l) = l.
Proof. unfold slice. rewrite Nat.sub_0_r. cbn [skipn]. apply firstn_all. Qed.

Lemma chain_slices {A : Type} (l : list A) (segs : list segment) :
  forall a b, chain a segs b ->
    concat (map (fun sg => slice l (fst sg) (snd sg)) segs) = slice l a b.
Proof.
  induction segs as [|[s e] segs IH]; intros a b Hc; cbn [chain map concat] in *.
  - subst. unfold slice. rewrite Nat.sub_diag. reflexivity.
  - destruct Hc as [Hs [Hse Hc]]. subst s. cbn [fst snd].
    rewrite (IH e b Hc). apply slice_app.
    apply chain_le in Hc. lia.
Qed.

(** A value that is below the tolerance in absolute value needs a positive
    tolerance. *)
Lemma abs_below_positive (y tol : float) :
  PrimFloat.ltb (PrimFloat.abs y) tol = true -> PrimFloat.ltb 0 tol = true.
Proof.
  rewrite !ltb_spec, abs_spec.
  change (Prim2SF 0) with (S754_zero false).
  destruct (Prim2SF y) as [[]|[]| |[] m e];
    destruct (Prim2SF tol) as [[]|[]| |[] m' e'];
    unfold SFltb; cbn; intros H; try reflexivity; try discriminate.
Qed.

(** X1.  On every non-empty potential sequence the segmenter returns
    segments that partition the index range, the first of which starts at
    0 and the last of which ends at the length of the sequence. *)
Theorem segmenter_tiles_from_zero_to_length (potential : list float) (tol : float) :
  potential <> [] ->
  exists segs,
    split_cycles_by_return_to_start potential tol = Ok segs
    /\ partitions segs (length potential)
    /\ (exists e, hd_error segs = Some (0, e))
    /\ (exists s, last segs (0, 0) = (s, length potential)).
Proof.
  destruct potential as [|v0 rest]; [congruence|]. intros _.
  destruct (split_cycles_shape v0 rest tol)
    as [segments [start_idx [E [Hc [Hlt _]]]]].
  eexists. split; [exact E|]. split; [|split].
  - apply chain_partitions. apply chain_snoc; assumption.
  - destruct segments as [|[s e] segments]; cbn [chain app hd_error] in *.
    + subst. eexists. reflexivity.
    + destruct Hc as [-> _]. eexists. reflexivity.
  - exists start_idx. rewrite last_last. reflexivity.
Qed.

Lemma segmenter_tiles_from_zero_to_length_witness :
  exists segs,
    split_cycles_by_return_to_start returning_sweep tol_default = Ok segs
    /\ partitions segs (length returning_sweep)
    /\ (exists e, hd_error segs = Some (0, e))
    /\ (exists s, last segs (0, 0) = (s, length returning_sweep)).
Proof.
  apply (segmenter_tiles_from_zero_to_length returning_sweep tol_default).
  discriminate.
Defined.

(** X2.  A sequence of at most eleven points is never split: whatever its
    values and the tolerance, the segmenter returns the one segment
    [(0, len)]. *)
Theorem short_sequence_is_one_segment (v0 : float) (rest : list float) (tol : float) :
  length rest <= 10 ->
  split_cycles_by_return_to_start (v0 :: rest) tol = Ok [(0, S (length rest))].
Proof.
  intros Hlen. rewrite split_cycles_refines. unfold segment_spec.
  rewrite (segment_scan_no_return v0 tol rest 1); [reflexivity|].
  intros k x Hk. unfold returns_to_start.
  assert (k < length rest) by (apply nth_error_Some; congruence).
  destruct (Z.gtb_spec (Z.of_nat (1 + k) - Z.of_nat 0) 10) as [L|L]; [lia|].
  apply andb_false_r.
Qed.

Lemma short_sequence_is_one_segment_witness :
  split_cycles_by_return_to_start two_sweeps tol_default = Ok [(0, 9)].
Proof.
  apply (short_sequence_is_one_segment 0%float
           [1; 2; 3; 0; 1; 2; 3; 0]%float tol_default).
  simpl. lia.
Defined.

(** X3.  The segmenter returns at least one segment on a non-empty
    sequence, and at most one more than an eleventh of the points before
    the last: [11 * (number of segments - 1) < len]. *)
Theorem segment_count_bound (v0 : float) (rest : list float) (tol : float) :
  exists segs,
    split_cycles_by_return_to_start (v0 :: rest) tol = Ok segs
    /\ 1 <= length segs
    /\ 11 * (length segs - 1) < length (v0 :: rest).
Proof.
  destruct (split_cycles_shape v0 rest tol)
    as [segments [start_idx [E [Hc [Hlt Hlong]]]]].
  eexists. split; [exact E|].
  rewrite length_app. cbn [length].
  pose proof (chain_long_enough_length segments 0 start_idx Hc Hlong) as H.
  unfold segment in *. split; lia.
Qed.

(** X4.  With a tolerance that is not positive (zero, negative or NaN) no
    point of a column of dtype float64 counts as a return to the start,
    and the segmenter returns the one segment [(0, len)].  On a column of
    dtype int64 that is not so: where the difference from the first
    potential wraps to [-2^63], its absolute value is [-2^63] again, which
    is below every tolerance above it, and the segmenter cuts there, as it
    does on [wrapping_sweep] with the tolerance 0. *)
Theorem nonpositive_tolerance_on_float64_and_int64 :
  (forall (v0 : float) (rest : list float) (tol : float),
     PrimFloat.ltb 0 tol = false ->
     split_cycles_by_return_to_start (v0 :: rest) tol
     = Ok [(0, S (length rest))])
  /\ (forall (x v0 : Z) (tol : float) (i start_idx : nat),
        int64_wrap (x - v0) = (- 2 ^ 63)%Z ->
        PrimFloat.ltb (-9223372036854775808)%float tol = true ->
        (Z.of_nat i - Z.of_nat start_idx > 10)%Z ->
        returns_to_start_int64 x v0 tol i start_idx = true)
  /\ split_cycles_by_return_to_start_int64 wrapping_sweep 0%float
     = Ok [(0, 11); (11, 13)].
Proof.
  split; [|split].
  - intros v0 rest tol Htol. rewrite split_cycles_refines. unfold segment_spec.
    rewrite (segment_scan_no_return v0 tol rest 1); [reflexivity|].
    intros k x Hk. unfold returns_to_start.
    destruct (PrimFloat.ltb (PrimFloat.abs (PrimFloat.sub x v0)) tol) eqn:E;
      [|reflexivity].
    apply abs_below_positive in E. congruence.
  - intros x v0 tol i start_idx Hwrap Htol Hfar.
    unfold returns_to_start_int64. rewrite Hwrap.
    replace (int64_wrap (Z.abs (- 2 ^ 63))) with (- 2 ^ 63)%Z
      by (vm_compute; reflexivity).
    unfold float_of_int64. rewrite Z.eqb_refl, Htol.
    apply Z.gtb_lt. lia.
  - vm_compute. reflexivity.
Qed.

Lemma nonpositive_tolerance_on_float64_and_int64_witness :
  split_cycles_by_return_to_start returning_sweep 0%float = Ok [(0, 13)]
  /\ returns_to_start_int64 (- 2 ^ 63) 0 0%float 11 0 = true.
Proof.
  destruct nonpositive_tolerance_on_float64_and_int64 as [Hfloat [Hint _]].
  split.
  - apply (Hfloat 0%float
             [1; 2; 3; 4; 5; 6; 7; 8; 9; 10; 0; 1]%float 0%float).
    reflexivity.
  - apply Hint.
    + vm_compute. reflexivity.
    + vm_compute. reflexivity.
    + simpl. lia.
Defined.

(** X5.  On a column of dtype float64, every segment the segmenter
    returns, except the one that ends the sequence, ends at a point whose
    potential is within the tolerance of the first potential and which
    lies more than 10 indices after the start of the segment.  On a column
    of dtype int64 a cut can lie at a potential far from the first:
    [wrapping_sweep] is cut at index 11, where the potential is [-2^63]
    and the first potential is 0. *)
Theorem cuts_are_returns_on_float64_not_on_int64 :
  (forall (v0 : float) (rest : list float) (tol : float)
          (segs : list segment) (j s e : nat),
     split_cycles_by_return_to_start (v0 :: rest) tol = Ok segs ->
     nth_error segs j = Some (s, e) ->
     e <> length (v0 :: rest) ->
     exists x,
       nth_error (v0 :: rest) e = Some x
       /\ PrimFloat.ltb (PrimFloat.abs (PrimFloat.sub x v0)) tol = true
       /\ s + 10 < e)
  /\ (split_cycles_by_return_to_start_int64 wrapping_sweep tol_default
      = Ok [(0, 11); (11, 13)]
      /\ nth_error wrapping_sweep 0 = Some 0%Z
      /\ nth_error wrapping_sweep 11 = Some (- 2 ^ 63)%Z).
Proof.
  split.
  - intros v0 rest tol segs j s e E Hj Hne.
    destruct (split_cycles_scanned v0 rest tol) as [segs' [E' Hsc]].
    rewrite E in E'. inversion E'; subst segs'.
    destruct (scanned_each _ _ _ _ 0 j (s, e) Hsc Hj) as [[Hend|[x [Hx Hr]]] _];
      cbn [fst snd] in *; [contradiction|].
    exists x. split; [exact Hx|].
    unfold returns_to_start in Hr. apply andb_true_iff in Hr as [Hnear Hfar].
    split; [exact Hnear | lia].
  - split; [vm_compute; reflexivity|]. split; reflexivity.
Qed.

Lemma cuts_are_returns_on_float64_not_on_int64_witness :
  exists x,
    nth_error returning_sweep 11 = Some x
    /\ PrimFloat.ltb (PrimFloat.abs (PrimFloat.sub x 0)) tol_default = true
    /\ 0 + 10 < 11.
Proof.
  apply (proj1 cuts_are_returns_on_float64_not_on_int64 0%float
           [1; 2; 3; 4; 5; 6; 7; 8; 9; 10; 0; 1]%float tol_default
           [(0, 11); (11, 13)] 0 0 11).
  - vm_compute. reflexivity.
  - reflexivity.
  - simpl. lia.
Defined.

(** X6.  The segmenter cuts at the first opportunity: strictly inside a
    returned segment, a point whose potential is within the tolerance of
    the first potential lies at most 10 indices after the start of the
    segment. *)
Theorem no_return_is_missed (v0 : float) (rest : list float) (tol : float)
    (segs : list segment) (j s e k : nat) (x : float) :
  split_cycles_by_return_to_start (v0 :: rest) tol = Ok segs ->
  nth_error segs j = Some (s, e) ->
  s < k < e ->
  nth_error (v0 :: rest) k = Some x ->
  PrimFloat.ltb (PrimFloat.abs (PrimFloat.sub x v0)) tol = true ->
  k <= s + 10.
Proof.
  intros E Hj Hk Hx Hnear.
  destruct (split_cycles_scanned v0 rest tol) as [segs' [E' Hsc]].
  rewrite E in E'. inversion E'; subst segs'.
  destruct (scanned_each _ _ _ _ 0 j (s, e) Hsc Hj) as [_ Hfirst].
  cbn [fst snd] in Hfirst.
  specialize (Hfirst k x ltac:(lia) Hx).
  unfold returns_to_start in Hfirst. rewrite Hnear in Hfirst.
  cbn [andb] in Hfirst.
  destruct (Z.gtb_spec (Z.of_nat k - Z.of_nat s) 10) as [L|L];
    [discriminate | lia].
Qed.

Lemma no_return_is_missed_witness : 4 <= 0 + 10.
Proof.
  apply (no_return_is_missed 0%float [1; 2; 3; 0; 1; 2; 3; 0]%float tol_default
           [(0, 9)] 0 0 9 4 0%float).
  - vm_compute. reflexivity.
  - reflexivity.
  - lia.
  - reflexivity.
  - vm_compute. reflexivity.
Defined.

(** X7.  Cutting a column of the same length as the potentials along the
    returned segments loses and repeats nothing: the slices, concatenated
    in the order of the segments, are the column. *)
Theorem slices_of_segments_make_the_column {A : Type} (potential : list float)
    (tol : float) (segs : list segment) (column : list A) :
  split_cycles_by_return_to_start potential tol = Ok segs ->
  length column = length potential ->
  concat (map (fun sg => slice column (fst sg) (snd sg)) segs) = column.
Proof.
  intros E Hlen. destruct potential as [|v0 rest]; [discriminate|].
  destruct (split_cycles_shape v0 rest tol)
    as [segments [start_idx [E' [Hc [Hlt _]]]]].
  rewrite E in E'. inversion E'; subst segs.
  rewrite (chain_slices column _ 0 (S (length rest))).
  - cbn [length] in Hlen. rewrite <- Hlen. apply slice_all.
  - apply chain_snoc; assumption.
Qed.

Lemma slices_of_segments_make_the_column_witness :
  concat (map (fun sg => slice returning_sweep (fst sg) (snd sg))
              [(0, 11); (11, 13)])
  = returning_sweep.
Proof.
  apply (slices_of_segments_make_the_column returning_sweep tol_default).
  - vm_compute. reflexivity.
  - reflexivity.
Defined.

(* ================================================================= *)
(** * Further properties of the cycle selection *)

Lemma enumerate_from_in {A : Type} (l : list A) :
  forall a i x, nth_error l i = Some x -> In (a + i, x) (enumerate_from a l).
Proof.
  unfold enumerate_from.
  induction l as [|y l IH]; intros a i x H.
  - destruct i; discriminate.
  - cbn [length seq combine]. destruct i as [|i]; cbn [nth_error] in H.
    + inversion H; subst. left. rewrite Nat.add_0_r. reflexivity.
    + right. replace (a + S i) with (S a + i) by lia. apply IH. exact H.
Qed.

Lemma enumerate_from_sorted {A : Type} (keep : nat * A -> bool) (l : list A) :
  forall a,
    StronglySorted lt (map fst (filter keep (enumerate_from a l)))
    /\ Forall (le a) (map fst (filter keep (enumerate_from a l))).
Proof.
  unfold enumerate_from.
  induction l as [|y l IH]; intros a; cbn [length seq combine filter map].
  - split; constructor.
  - destruct (IH (S a)) as [Hs Hle].
    assert (Hle' : Forall (le a)
                     (map fst (filter keep (combine (seq (S a) (length l)) l)))).
    { eapply Forall_impl; [|exact Hle]. intros; lia. }
    destruct (keep (a, y)); cbn [map fst].
    + split.
      * constructor; [exact Hs|]. eapply Forall_impl; [|exact Hle].
        intros; lia.
      * constructor; [lia | exact Hle'].
    + split; assumption.
Qed.

Lemma filter_enumerate_all {A : Type} (keep : nat * A -> bool) (l : list A) :
  forall a,
    (forall x, In x l -> forall i, keep (i, x) = true) ->
    map fst (filter keep (enumerate_from a l)) = seq a (length l).
Proof.
  unfold enumerate_from.
  induction l as [|y l IH]; intros a Hkeep; cbn [length seq combine filter map].
  - reflexivity.
  - rewrite (Hkeep y (or_introl eq_refl) a). cbn [map fst]. f_equal.
    apply IH. intros x Hx. apply Hkeep. right. exact Hx.
Qed.

Lemma cycle_labels_nth (segments : list segment) (i : nat) :
  i < length segments ->
  nth_error (cycle_labels segments) i
  = Some ("Cycle " ++ str_of_nat (i + 1))%string.
Proof.
  intros H. unfold cycle_labels, range.
  rewrite nth_error_map, Nat.sub_0_r.
  rewrite nth_error_nth' with (d := 0) by (rewrite length_seq; exact H).
  rewrite seq_nth by exact H. reflexivity.
Qed.

Lemma cycle_labels_length (segments : list segment) :
  length (cycle_labels segments) = length segments.
Proof.
  unfold cycle_labels, range. rewrite length_map, length_seq. lia.
Qed.

Lemma mem_In (s : string) (l : list string) : mem s l = true <-> In s l.
Proof.
  unfold mem. rewrite existsb_exists. split.
  - intros [x [Hin E]]. apply String.eqb_eq in E. subst. exact Hin.
  - intros Hin. exists s. split; [exact Hin | apply String.eqb_refl].
Qed.

Lemma str_of_nat_injective (a b : nat) : str_of_nat a = str_of_nat b -> a = b.
Proof.
  unfold str_of_nat. intros H.
  apply DecimalNat.Unsigned.to_uint_inj.
  assert (E : NilEmpty.uint_of_string (NilEmpty.string_of_uint (Nat.to_uint a))
              = NilEmpty.uint_of_string (NilEmpty.string_of_uint (Nat.to_uint b)))
    by (rewrite H; reflexivity).
  rewrite !NilEmpty.usu in E. inversion E. reflexivity.
Qed.

Lemma select_cycles_sorted (st : widgets) (segments : list segment)
    (lbl : string) :
  StronglySorted lt (select_cycles st segments lbl).
Proof.
  unfold select_cycles, enumerate.
  apply (enumerate_from_sorted
           (fun ic => mem (snd ic) (multiselect st lbl _)) _ 0).
Qed.

Lemma select_cycles_iff (st : widgets) (segments : list segment)
    (lbl : string) (i : nat) :
  In i (select_cycles st segments lbl)
  <-> i < length segments
      /\ In ("Cycle " ++ str_of_nat (i + 1))%string
            (multiselect st lbl (cycle_labels segments)).
Proof.
  split.
  - intros H. pose proof (select_cycles_in_range _ _ _ _ H) as Hi.
    split; [exact Hi|].
    unfold select_cycles in H. fold (cycle_labels segments) in H.
    apply in_map_iff in H as [[i' c] [E H]]. cbn [fst] in E. subst i'.
    apply filter_In in H as [Hin Hm]. cbn [snd] in Hm.
    apply enumerate_nth in Hin. rewrite cycle_labels_nth in Hin by exact Hi.
    inversion Hin; subst c. apply mem_In. exact Hm.
  - intros [Hi Hm]. unfold select_cycles. fold (cycle_labels segments).
    apply in_map_iff.
    exists (i, ("Cycle " ++ str_of_nat (i + 1))%string). split; [reflexivity|].
    apply filter_In. split.
    + apply (enumerate_from_in (cycle_labels segments) 0 i).
      apply cycle_labels_nth. exact Hi.
    + cbn [snd]. apply mem_In. exact Hm.
Qed.

Lemma sorted_singleton (l : list nat) (k : nat) :
  StronglySorted lt l -> (forall i, In i l <-> i = k) -> l = [k].
Proof.
  intros Hs Hin. destruct l as [|x l].
  - exfalso. apply (proj2 (Hin k) eq_refl).
  - assert (x = k) by (apply Hin; left; reflexivity). subst x.
    destruct l as [|y l]; [reflexivity|]. exfalso.
    assert (y = k) by (apply Hin; right; left; reflexivity). subst y.
    inversion Hs as [|? ? _ Hx]; subst. inversion Hx; subst. lia.
Qed.

Lemma cycle_label_injective (a b : nat) :
  ("Cycle " ++ str_of_nat (a + 1))%string
  = ("Cycle " ++ str_of_nat (b + 1))%string -> a = b.
Proof.
  cbn [append]. intros H. inversion H as [E].
  apply str_of_nat_injective in E. lia.
Qed.

Lemma map_injective_NoDup {A B : Type} (f : A -> B) (l : list A) :
  (forall a b, f a = f b -> a = b) -> NoDup l -> NoDup (map f l).
Proof.
  intros Hinj. induction 1 as [|x l Hx Hl IH]; cbn [map]; constructor.
  - intros Hin. apply in_map_iff in Hin as [y [E Hy]].
    apply Hinj in E. subst. contradiction.
  - exact IH.
Qed.

(** X8.  The cycles chosen for display are returned as indices into the
    segments, each below the number of segments, in strictly increasing
    order: no cycle is drawn twice and none out of range, whatever the
    multiselect answers. *)
Theorem select_cycles_increasing_in_range (st : widgets)
    (segments : list segment) (lbl : string) :
  StronglySorted lt (select_cycles st segments lbl)
  /\ NoDup (select_cycles st segments lbl)
  /\ Forall (fun i => i < length segments) (select_cycles st segments lbl).
Proof.
  pose proof (select_cycles_sorted st segments lbl) as Hs.
  split; [exact Hs|]. split.
  - induction Hs as [|x l Hs IH Hx]; constructor; [|exact IH].
    intros Hin. rewrite Forall_forall in Hx. apply Hx in Hin. lia.
  - apply Forall_forall. intros i Hi.
    eapply select_cycles_in_range; eauto.
Qed.

(** X9.  A cycle is chosen for display exactly when its label,
    ["Cycle "] followed by its number counted from 1, is among the options
    the multiselect answers. *)
Theorem select_cycles_by_label (st : widgets) (segments : list segment)
    (lbl : string) (i : nat) :
  In i (select_cycles st segments lbl)
  <-> i < length segments
      /\ In ("Cycle " ++ str_of_nat (i + 1))%string
            (multiselect st lbl (cycle_labels segments)).
Proof. apply select_cycles_iff. Qed.

Lemma select_cycles_all_selected (st : widgets) (segments : list segment)
    (lbl : string) :
  multiselect st lbl (cycle_labels segments) = cycle_labels segments ->
  select_cycles st segments lbl = seq 0 (length segments).
Proof.
  intros Hall. unfold select_cycles. fold (cycle_labels segments).
  rewrite Hall. unfold enumerate.
  change (combine (seq 0 (length (cycle_labels segments))) (cycle_labels segments))
    with (enumerate_from 0 (cycle_labels segments)).
  rewrite filter_enumerate_all, cycle_labels_length; [reflexivity|].
  intros c Hc i. cbn [snd]. apply mem_In. exact Hc.
Qed.

(** X10.  When the multiselect is left as it is shown, with every option
    selected, every cycle is chosen, in order: the indices
    [0, 1, ..., len(segments) - 1]. *)
Theorem select_cycles_default_is_all (st : widgets) (segments : list segment)
    (lbl : string) :
  multiselect st lbl (cycle_labels segments) = cycle_labels segments ->
  select_cycles st segments lbl = seq 0 (length segments).
Proof. apply select_cycles_all_selected. Qed.

Lemma select_cycles_default_is_all_witness :
  select_cycles select_all [(0, 11); (11, 13)] "cycles" = [0; 1].
Proof.
  apply (select_cycles_default_is_all select_all [(0, 11); (11, 13)] "cycles").
  reflexivity.
Defined.

(** X11.  The labels of the cycles are pairwise different, so that a
    label stands for one cycle: when the multiselect answers the one label
    of cycle [k], exactly that cycle is chosen. *)
Theorem select_cycles_single_label (st : widgets) (segments : list segment)
    (lbl : string) (k : nat) :
  k < length segments ->
  multiselect st lbl (cycle_labels segments)
  = [("Cycle " ++ str_of_nat (k + 1))%string] ->
  NoDup (cycle_labels segments)
  /\ select_cycles st segments lbl = [k].
Proof.
  intros Hk Hsel. split.
  - unfold cycle_labels. apply map_injective_NoDup.
    + apply cycle_label_injective.
    + apply seq_NoDup.
  - apply sorted_singleton; [apply select_cycles_sorted|].
    intros i. rewrite select_cycles_iff, Hsel. split.
    + intros [_ [E|[]]]. symmetry. apply cycle_label_injective. exact E.
    + intros ->. split; [exact Hk | left; reflexivity].
Qed.

Lemma select_cycles_single_label_witness :
  NoDup (cycle_labels [(0, 11); (11, 13)])
  /\ select_cycles {| multiselect := fun _ _ => ["Cycle 2"%string] |}
                   [(0, 11); (11, 13)] "cycles" = [1].
Proof.
  apply (select_cycles_single_label
           {| multiselect := fun _ _ => ["Cycle 2"%string] |}
           [(0, 11); (11, 13)] "cycles" 1).
  - simpl. lia.
  - reflexivity.
Defined.

(* ================================================================= *)
(** * Further properties of the loader and of the single-file render *)

Lemma dropna_leading_missing (n : nat) (cells : list (option string)) :
  dropna (repeat None n ++ cells) = dropna cells.
Proof. induction n as [|n IH]; [reflexivity | exact IH]. Qed.

Lemma first_unit_first_present (n : nat) (u : string)
    (more : list (option string)) (default : string) :
  first_unit (Some (repeat None n ++ Some u :: more)) default = u.
Proof. unfold first_unit. rewrite dropna_leading_missing. reflexivity. Qed.

Lemma first_unit_all_missing (n : nat) (default : string) :
  first_unit (Some (repeat None n)) default = default.
Proof.
  unfold first_unit. rewrite <- (app_nil_r (repeat None n)).
  rewrite dropna_leading_missing. reflexivity.
Qed.

(** X12.  For a file that parses, the loader returns its [x] and [y]
    columns as they are and, for each unit, the first cell of the unit
    column that is not missing, however many missing cells come before it;
    a unit column with only missing cells gives the default, ["V"] or
    ["A"]. *)
Theorem loader_unit_is_first_present_cell (f : UploadedFile) (df : DataFrame)
    (w : world) :
  next_read w f = Ok df ->
  exists x_unit y_unit,
    read_cv_data f w = Ok ((col_x df, col_y df, x_unit, y_unit), read_once w f)
    /\ (forall n u more,
          col_x_unit df = Some (repeat None n ++ Some u :: more) -> x_unit = u)
    /\ (forall n, col_x_unit df = Some (repeat None n) -> x_unit = "V"%string)
    /\ (forall n u more,
          col_y_unit df = Some (repeat None n ++ Some u :: more) -> y_unit = u)
    /\ (forall n, col_y_unit df = Some (repeat None n) -> y_unit = "A"%string).
Proof.
  intros Hf. eexists. eexists.
  split; [apply read_cv_data_frame; exact Hf|].
  split; [|split; [|split]].
  - intros n u more ->. apply first_unit_first_present.
  - intros n ->. apply first_unit_all_missing.
  - intros n u more ->. apply first_unit_first_present.
  - intros n ->. apply first_unit_all_missing.
Qed.

Lemma loader_unit_is_first_present_cell_witness :
  exists x_unit y_unit,
    read_cv_data millivolt_file fresh
    = Ok ((col_x millivolt_frame, col_y millivolt_frame, x_unit, y_unit),
          read_once fresh millivolt_file)
    /\ x_unit = "mV"%string /\ y_unit = "uA"%string.
Proof.
  destruct (loader_unit_is_first_present_cell millivolt_file millivolt_frame
              fresh eq_refl) as [xu [yu [E [Hx [_ [Hy _]]]]]].
  exists xu, yu. split; [exact E|]. split.
  - apply (Hx 0 "mV"%string [None; None]). reflexivity.
  - apply (Hy 0 "uA"%string [None; None]). reflexivity.
Defined.

Lemma ret_ok {A : Type} (a b : A) (w w' : world) :
  ret a w = Ok (b, w') -> b = a /\ w' = w.
Proof. unfold ret. intros H. inversion H. auto. Qed.

Lemma ax_plot_ok (l : line) (u : unit) (w w' : world) :
  ax_plot l w = Ok (u, w') -> w' = drawn w l.
Proof. unfold ax_plot. intros H. inversion H. reflexivity. Qed.

Lemma only_draws_refl (w : world) : only_draws w w.
Proof.
  repeat split. exists []. rewrite app_nil_r. reflexivity.
Qed.

Lemma only_draws_trans (w1 w2 w3 : world) :
  only_draws w1 w2 -> only_draws w2 w3 -> only_draws w1 w3.
Proof.
  intros [W1 [R1 [n1 L1]]] [W2 [R2 [n2 L2]]].
  split; [congruence|]. split; [congruence|].
  exists (n1 ++ n2). rewrite L2, L1, app_assoc. reflexivity.
Qed.

Lemma only_draws_drawn (w : world) (l : line) : only_draws w (drawn w l).
Proof. repeat split. exists [l]. reflexivity. Qed.

Lemma plot_smoothed_only_draws (x y : list float) (lbl : string) (c : color)
    (w w' : world) :
  plot_smoothed x y lbl c w = Ok (tt, w') -> only_draws w w'.
Proof.
  intros H. apply plot_smoothed_effect in H as [xs [ys ->]].
  apply only_draws_drawn.
Qed.

Lemma single_cycle_body_only_draws (title : string)
    (potential current : list float) (segments : list segment) (smooth : bool)
    (i : nat) (w w' : world) :
  single_cycle_body title potential current segments smooth i w = Ok (tt, w') ->
  only_draws w w'.
Proof.
  unfold single_cycle_body. intros H.
  apply bind_ok in H as [[start stop] [w1 [H1 H]]]. apply lift_ok in H1 as [_ ->].
  apply bind_ok in H as [[] [w2 [H2 H]]].
  apply ax_plot_ok in H2 as ->.
  destruct smooth.
  - eapply only_draws_trans; [apply only_draws_drawn|].
    eapply plot_smoothed_only_draws; exact H.
  - apply ret_ok in H as [_ ->]. apply only_draws_drawn.
Qed.

Lemma for_eachM_only_draws {I : Type} (body : I -> M unit) (items : list I) :
  (forall i w w', body i w = Ok (tt, w') -> only_draws w w') ->
  forall w w', for_eachM body items w = Ok (tt, w') -> only_draws w w'.
Proof.
  intros Hbody. induction items as [|i items IH]; intros w w' H;
    cbn [for_eachM] in H.
  - apply ret_ok in H as [_ ->]. apply only_draws_refl.
  - apply bind_ok in H as [[] [w1 [H1 H]]].
    eapply only_draws_trans; [eapply Hbody; eauto | eapply IH; eauto].
Qed.

Lemma mark_peak_lines_only_draws (potential current : list float)
    (w w' : world) :
  mark_peak_lines potential current w = Ok (tt, w') -> only_draws w w'.
Proof.
  unfold mark_peak_lines. intros H.
  apply bind_ok in H as [ox [w1 [H1 H]]]. apply lift_ok in H1 as [_ ->].
  apply bind_ok in H as [red [w1 [H1 H]]]. apply lift_ok in H1 as [_ ->].
  apply bind_ok in H as [px [w1 [H1 H]]]. apply lift_ok in H1 as [_ ->].
  apply bind_ok in H as [cx [w1 [H1 H]]]. apply lift_ok in H1 as [_ ->].
  apply bind_ok in H as [[] [w1 [H1 H]]].
  apply ax_plot_ok in H1 as ->.
  apply bind_ok in H as [pr [w1 [H1 H]]]. apply lift_ok in H1 as [_ ->].
  apply bind_ok in H as [cr [w1 [H1 H]]]. apply lift_ok in H1 as [_ ->].
  apply ax_plot_ok in H as ->.
  eapply only_draws_trans; apply only_draws_drawn.
Qed.

(** X13.  When the single-file render returns a figure, the file has
    been read exactly once and has both an [x] and a [y] column, no
    warning has been shown, the axis labels carry the units the loader
    returned for that read, legend and grid are on, and the lines of the
    figure are the lines on the axes. *)
Theorem single_render_effect (st : widgets) (f : UploadedFile)
    (label : option string) (smooth mark_peaks auto_split : bool)
    (w w' : world) (fig : figure) :
  plot_single_cv st f label smooth mark_peaks auto_split w = Ok (fig, w') ->
  (exists df potential current,
     next_read w f = Ok df
     /\ col_x df = Some potential /\ col_y df = Some current)
  /\ (xlabel fig, ylabel fig)
     = (let u := units_of_outcome (next_read w f) in
        ("Potential (" ++ fst u ++ ")", "Current (" ++ snd u ++ ")"))%string
  /\ legend fig = true /\ grid fig = true
  /\ fig_lines fig = ax_lines w'
  /\ st_warnings w' = st_warnings w
  /\ file_reads w' = file_reads w ++ [file_id f].
Proof.
  unfold plot_single_cv. intros H.
  apply bind_ok in H as [[[[potential current] x_unit] y_unit] [w1 [H1 H]]].
  destruct potential as [potential|]; [|discriminate].
  destruct current as [current|]; [|discriminate].
  assert (Hdf : exists df, next_read w f = Ok df
                  /\ col_x df = Some potential /\ col_y df = Some current
                  /\ w1 = read_once w f
                  /\ (x_unit, y_unit) = units_of_outcome (next_read w f)).
  { destruct (next_read w f) as [df|e] eqn:Hf.
    - rewrite (read_cv_data_frame _ _ _ Hf) in H1.
      injection H1 as Hx Hy Hxu Hyu Hw. exists df. cbn [units_of_outcome].
      rewrite Hx, Hy, Hxu, Hyu, Hw. repeat split; reflexivity.
    - unfold read_cv_data, bind, pd_read_csv, raise in H1.
      rewrite Hf in H1. destruct e; discriminate. }
  destruct Hdf as [df [Hf [Hx [Hy [-> Hu]]]]].
  apply bind_ok in H as [[] [w2 [H2 H]]].
  unfold subplots in H2. inversion H2; subst w2; clear H2.
  apply bind_ok in H as [[] [w3 [H3 H]]].
  apply bind_ok in H as [[] [w4 [H4 H]]].
  unfold finish_figure, bind, get_lines, ret in H. inversion H; subst fig w'.
  cbn [xlabel ylabel legend grid fig_lines].
  assert (D3 : only_draws
                 {| st_warnings := st_warnings (read_once w f);
                    ax_lines := [];
                    file_reads := file_reads (read_once w f) |} w3).
  { destruct auto_split.
    - apply bind_ok in H3 as [segments [w5 [H5 H3]]].
      apply lift_ok in H5 as [_ ->].
      eapply for_eachM_only_draws; [|exact H3].
      intros i a b. apply single_cycle_body_only_draws.
    - apply bind_ok in H3 as [[] [w5 [H5 H3]]].
      apply ax_plot_ok in H5 as ->.
      destruct smooth.
      + eapply only_draws_trans; [apply only_draws_drawn|].
        eapply plot_smoothed_only_draws; exact H3.
      + apply ret_ok in H3 as [_ ->]. apply only_draws_drawn. }
  assert (D4 : only_draws w3 w4).
  { destruct (mark_peaks && negb auto_split).
    - eapply mark_peak_lines_only_draws; eauto.
    - apply ret_ok in H4 as [_ ->]. apply only_draws_refl. }
  destruct (only_draws_trans _ _ _ D3 D4) as [W [R _]].
  cbn [st_warnings file_reads read_once] in W, R.
  split; [exists df, potential, current; auto|].
  split; [rewrite <- Hu; reflexivity|].
  repeat split; assumption.
Qed.

Lemma single_render_effect_witness :
  exists fig w',
    plot_single_cv select_all millivolt_file None false true false fresh
    = Ok (fig, w')
    /\ (xlabel fig, ylabel fig)
       = ("Potential (mV)"%string, "Current (uA)"%string)
    /\ st_warnings w' = []
    /\ file_reads w' = [file_id millivolt_file].
Proof.
  destruct (plot_single_cv select_all millivolt_file None false true false
              fresh) as [[fig w']|e] eqn:E; [|vm_compute in E; discriminate].
  exists fig, w'. split; [reflexivity|].
  destruct (single_render_effect select_all millivolt_file None false true
              false fresh w' fig E) as [_ [Hl [_ [_ [_ [Hw Hr]]]]]].
  split; [exact Hl|]. split; [exact Hw | exact Hr].
Defined.

(* ================================================================= *)
(** * Further properties of the single-file render with auto-split *)

Lemma drawn_all_nil (w : world) : drawn_all w [] = w.
Proof. destruct w. unfold drawn_all. cbn. rewrite app_nil_r. reflexivity. Qed.

Lemma drawn_all_cons (w : world) (l : line) (new : list line) :
  drawn_all (drawn w l) new = drawn_all w (l :: new).
Proof.
  unfold drawn_all, drawn. cbn. rewrite <- app_assoc. reflexivity.
Qed.

Lemma single_cycles_loop (title : string) (potential current : list float)
    (segments : list segment) :
  forall (todo done : list segment) (w : world),
    segments = done ++ todo ->
    for_eachM (single_cycle_body title potential current segments false)
              (seq (length done) (length todo)) w
    = Ok (tt, drawn_all w (map (single_cycle_line title potential current)
                               (enumerate_from (length done) todo))).
Proof.
  induction todo as [|[s e] todo IH]; intros done w E.
  - cbn. rewrite drawn_all_nil. reflexivity.
  - unfold enumerate_from. cbn [length seq combine map for_eachM].
    unfold bind at 1. unfold single_cycle_body at 1. unfold segment_at.
    rewrite E at 1. rewrite nth_error_app2 by lia. rewrite Nat.sub_diag.
    cbn [nth_error]. unfold bind at 1. unfold lift at 1.
    unfold bind at 1. unfold ax_plot at 1. unfold ret at 1.
    specialize (IH (done ++ [(s, e)])).
    rewrite length_app in IH. cbn [length] in IH. rewrite Nat.add_1_r in IH.
    rewrite IH by (rewrite <- app_assoc; exact E).
    rewrite drawn_all_cons. reflexivity.
Qed.

Lemma slice_length_inside {A : Type} (l : list A) (start stop : nat) :
  stop <= length l -> length (slice l start stop) = stop - start.
Proof.
  intros H. unfold slice. rewrite length_firstn, length_skipn. lia.
Qed.

Lemma map_lines_of_segments (proj : line -> list float)
    (part : segment -> list float) (mk : nat * segment -> line) :
  (forall item, proj (mk item) = part (snd item)) ->
  forall a segs,
    map proj (map mk (enumerate_from a segs)) = map part segs.
Proof.
  intros H a segs. rewrite map_map.
  rewrite <- (enumerate_from_snd segs a) at 2. rewrite map_map.
  apply map_ext. exact H.
Qed.

(** X14.  With auto-split on, smoothing off and every cycle left
    selected, the single-file render of a file with at least one row draws
    one line per segment, in order, in the palette colour of its position
    modulo 10 and labelled with its number counted from 1; laid end to end
    the lines give back the potential column and the current column, so
    every row is drawn exactly once.  No peak marker is drawn, whatever
    the peak option says. *)
Theorem auto_split_render_draws_every_row_once (st : widgets)
    (f : UploadedFile) (df : DataFrame) (label : option string)
    (mark_peaks : bool) (v0 : float) (rest current : list float) (w : world) :
  next_read w f = Ok df ->
  col_x df = Some (v0 :: rest) -> col_y df = Some current ->
  length current = length (v0 :: rest) ->
  (forall options, multiselect st "选择拆分出来的圈数" options = options) ->
  exists segments fig w',
    split_cycles_by_return_to_start (v0 :: rest) tol_default = Ok segments
    /\ plot_single_cv st f label false mark_peaks true w = Ok (fig, w')
    /\ fig_lines fig
       = map (single_cycle_line (or_else label (basename (name f)))
                                (v0 :: rest) current)
             (enumerate segments)
    /\ concat (map xdata (fig_lines fig)) = v0 :: rest
    /\ concat (map ydata (fig_lines fig)) = current.
Proof.
  intros Hf Hx Hy Hlen Hall.
  destruct (split_cycles_shape v0 rest tol_default)
    as [closed [start_idx [E [Hc [Hlt _]]]]].
  remember (closed ++ [(start_idx, S (length rest))]) as segments eqn:Hsegs.
  assert (Hchain : chain 0 segments (S (length rest)))
    by (rewrite Hsegs; apply chain_snoc; assumption).
  exists segments.
  assert (Hrun : exists fig w',
             plot_single_cv st f label false mark_peaks true w = Ok (fig, w')
             /\ fig_lines fig
                = map (single_cycle_line (or_else label (basename (name f)))
                                         (v0 :: rest) current)
                      (enumerate segments)).
  { unfold plot_single_cv. unfold bind at 1.
    rewrite (read_cv_data_frame f df w Hf), Hx, Hy.
    unfold bind at 1. unfold subplots at 1.
    unfold bind at 1. unfold bind at 1. unfold lift at 1. rewrite E.
    rewrite select_cycles_all_selected by apply Hall.
    rewrite (single_cycles_loop _ _ _ segments segments [] _ eq_refl).
    cbn [negb]. rewrite andb_false_r.
    unfold bind at 1. unfold ret at 1.
    unfold finish_figure, bind, get_lines, ret.
    eexists. eexists. split; [reflexivity|]. reflexivity. }
  destruct Hrun as [fig [w' [Hrun Hlines]]].
  exists fig, w'. split; [exact E|]. split; [exact Hrun|].
  split; [exact Hlines|].
  rewrite Hlines. unfold enumerate.
  change (combine (seq 0 (length segments)) segments)
    with (enumerate_from 0 segments).
  split.
  - rewrite (map_lines_of_segments xdata
               (fun sg => slice (v0 :: rest) (fst sg) (snd sg)))
      by reflexivity.
    rewrite (chain_slices _ _ _ _ Hchain).
    apply (slice_all (v0 :: rest)).
  - rewrite (map_lines_of_segments ydata
               (fun sg => slice current (fst sg) (snd sg)))
      by reflexivity.
    rewrite (chain_slices _ _ _ _ Hchain).
    replace (S (length rest)) with (length current) by exact Hlen.
    apply slice_all.
Qed.

Lemma auto_split_render_draws_every_row_once_witness :
  exists segments fig w',
    split_cycles_by_return_to_start returning_sweep tol_default = Ok segments
    /\ plot_single_cv select_all sweep_file None false true true fresh
       = Ok (fig, w')
    /\ concat (map xdata (fig_lines fig)) = returning_sweep.
Proof.
  assert (Hlen : length returning_sweep = length returning_sweep)
    by reflexivity.
  assert (Hall : forall options,
             multiselect select_all "选择拆分出来的圈数" options = options)
    by (intros options; reflexivity).
  destruct (auto_split_render_draws_every_row_once select_all sweep_file
              (frame_of returning_sweep returning_sweep None None) None true
              0%float (tl returning_sweep) returning_sweep fresh
              eq_refl eq_refl eq_refl Hlen Hall)
    as [segments [fig [w' [E [Hrun [_ [Hx _]]]]]]].
  exists segments, fig, w'. split; [exact E|]. split; [exact Hrun | exact Hx].
Defined.

(** X15.  With auto-split and smoothing on, only the last cycle can be
    too short for the smoother: every segment but the last has more than
    ten points, the window of the call [savgol_filter(values, 11, 3)], so
    the loop body draws it and its smoothed curve without an error. *)
Theorem smoothing_can_fail_only_on_last_cycle (title : string) (v0 : float)
    (rest current : list float) (tol : float) (segments : list segment)
    (i : nat) (w : world) :
  length current = length (v0 :: rest) ->
  split_cycles_by_return_to_start (v0 :: rest) tol = Ok segments ->
  S i < length segments ->
  exists raw smoothed,
    single_cycle_body title (v0 :: rest) current segments true i w
    = Ok (tt, drawn (drawn w raw) smoothed)
    /\ 11 <= length (xdata raw)
    /\ length (xdata smoothed) = length (xdata raw)
    /\ length (ydata smoothed) = length (ydata raw).
Proof.
  intros Hlen E Hi.
  destruct (split_cycles_shape v0 rest tol)
    as [closed [start_idx [E' [Hc [Hlt Hlong]]]]].
  rewrite E in E'. inversion E' as [Hsegs]. clear E'.
  assert (Hic : i < length closed).
  { rewrite Hsegs, length_app in Hi. cbn [length] in Hi. unfold segment in *. lia. }
  destruct (nth_error closed i) as [[s e]|] eqn:Hnth;
    [|apply nth_error_None in Hnth; unfold segment in *; lia].
  pose proof (chain_bounds _ _ _ _ _ Hc Hnth) as [_ [Hse He]].
  cbn [fst snd] in Hse, He.
  assert (Hl : long_enough (s, e)).
  { rewrite Forall_forall in Hlong. apply Hlong.
    eapply nth_error_In; eauto. }
  unfold long_enough in Hl. cbn [fst snd] in Hl.
  assert (Lx : length (slice (v0 :: rest) s e) = e - s).
  { apply slice_length_inside. cbn [length]. lia. }
  assert (Ly : length (slice current s e) = e - s).
  { apply slice_length_inside. rewrite Hlen. cbn [length]. lia. }
  destruct (savgol_filter_length (slice (v0 :: rest) s e) 11 3 eq_refl)
    as [xs [Ex Lxs]]; [lia|].
  destruct (savgol_filter_length (slice current s e) 11 3 eq_refl)
    as [ys [Ey Lys]]; [lia|].
  eexists. eexists. split.
  - unfold single_cycle_body, segment_at.
    rewrite Hsegs, nth_error_app1 by exact Hic. rewrite Hnth.
    unfold bind at 1. unfold lift at 1. unfold bind at 1. unfold ax_plot at 1.
    unfold plot_smoothed, bind, lift. rewrite Ex, Ey. unfold ax_plot.
    reflexivity.
  - cbn [xdata ydata plain_line]. rewrite Lxs, Lys, Lx, Ly. lia.
Qed.

Lemma smoothing_can_fail_only_on_last_cycle_witness :
  exists raw smoothed,
    single_cycle_body "sweep" returning_sweep returning_sweep
      [(0, 11); (11, 13)] true 0 fresh
    = Ok (tt, drawn (drawn fresh raw) smoothed)
    /\ 11 <= length (xdata raw).
Proof.
  assert (Hlen : length returning_sweep = length returning_sweep)
    by reflexivity.
  assert (E : split_cycles_by_return_to_start returning_sweep tol_default
              = Ok [(0, 11); (11, 13)]) by (vm_compute; reflexivity).
  assert (Hi : 1 < length [(0, 11); (11, 13)]) by (simpl; lia).
  destruct (smoothing_can_fail_only_on_last_cycle "sweep" 0%float
              (tl returning_sweep) returning_sweep tol_default
              [(0, 11); (11, 13)] 0 fresh Hlen E Hi)
    as [raw [smoothed [Hrun [Hl _]]]].
  exists raw, smoothed. split; [exact Hrun | exact Hl].
Defined.

(* ================================================================= *)
(** * Further properties of the overlay *)

Lemma plot_multi_cv_parts (st : widgets) (files : list UploadedFile)
    (smooth : bool) (selected_files : option (list string)) (auto_split : bool)
    (w w' : world) (fig : figure) :
  plot_multi_cv st files smooth selected_files auto_split w = Ok (fig, w') ->
  exists w2 u,
    for_eachM (multi_file_body st smooth selected_files auto_split)
              (enumerate files)
              {| st_warnings := st_warnings w; ax_lines := [];
                 file_reads := file_reads w |}
    = Ok (tt, w2)
    /\ axis_units files w2 = Ok (u, w')
    /\ fig_lines fig = ax_lines w'
    /\ (xlabel fig, ylabel fig)
       = ("Potential (" ++ fst u ++ ")", "Current (" ++ snd u ++ ")")%string.
Proof.
  unfold plot_multi_cv. intros H.
  apply bind_ok in H as [[] [w1 [H1 H]]].
  unfold subplots in H1. inversion H1; subst w1; clear H1.
  apply bind_ok in H as [[] [w2 [H2 H]]].
  apply bind_ok in H as [[x_unit y_unit] [w3 [H3 H]]].
  unfold finish_figure, bind, get_lines, ret in H. inversion H; subst.
  exists w2, (x_unit, y_unit). auto.
Qed.

Lemma axis_units_reads (files : list UploadedFile) (w w' : world)
    (u : string * string) :
  axis_units files w = Ok (u, w') ->
  file_reads w' = file_reads w ++ map file_id (firstn 1 files).
Proof.
  unfold axis_units. destruct files as [|f0 rest]; intros H.
  - apply ret_ok in H as [_ ->]. cbn. rewrite app_nil_r. reflexivity.
  - apply bind_ok in H as [[[[first_p first_c] x_unit] y_unit] [w1 [H1 H]]].
    apply read_cv_data_effect in H1 as [_ [R1 _]].
    destruct first_p; [destruct first_c|];
      apply ret_ok in H as [_ ->]; exact R1.
Qed.

(** X16.  The overlay reads every file it does not pass over once, in
    the order of the list, and then the first file of the list once more
    for the axis labels, also when that file is deselected; it reads
    nothing else, and the lines of the figure are the lines on its axes. *)
Theorem overlay_reads_first_file_again (st : widgets)
    (files : list UploadedFile) (smooth : bool)
    (selected_files : option (list string)) (auto_split : bool)
    (w w' : world) (fig : figure) :
  plot_multi_cv st files smooth selected_files auto_split w = Ok (fig, w') ->
  file_reads w'
  = file_reads w ++ map file_id (loaded_files selected_files files)
                 ++ map file_id (firstn 1 files)
  /\ fig_lines fig = ax_lines w'.
Proof.
  intros H. apply plot_multi_cv_parts in H as [w2 [u [H2 [H3 [L _]]]]].
  split; [|exact L].
  apply overlay_loop_effect with (files := files) in H2 as [_ [R2 _]];
    [|intros i f Hin; apply enumerate_nth; exact Hin].
  cbn [file_reads] in R2.
  change (enumerate files) with (enumerate_from 0 files) in R2.
  rewrite enumerate_from_snd in R2.
  apply axis_units_reads in H3. rewrite H3, R2, app_assoc. reflexivity.
Qed.

Lemma overlay_reads_first_file_again_witness :
  exists fig w',
    plot_multi_cv select_all [millivolt_file; volt_file] false
      (Some ["b.csv"%string]) false fresh = Ok (fig, w')
    /\ file_reads w' = [file_id volt_file; file_id millivolt_file].
Proof.
  eexists. eexists. split; [vm_compute; reflexivity|].
  refine (proj1 (overlay_reads_first_file_again select_all
                   [millivolt_file; volt_file] false (Some ["b.csv"%string])
                   false fresh _ _ _)).
  vm_compute. reflexivity.
Defined.

Lemma multi_file_body_raw_effect (st : widgets) (smooth : bool)
    (selected_files : option (list string)) (i : nat) (f : UploadedFile)
    (w w' : world) :
  multi_file_body st smooth selected_files false (i, f) w = Ok (tt, w') ->
  exists new,
    ax_lines w' = ax_lines w ++ new
    /\ Forall (fun l => deselected selected_files f = false
                        /\ file_colored i f l) new.
Proof.
  unfold multi_file_body. intros H.
  destruct (deselected selected_files f) eqn:Hd.
  { apply ret_ok in H as [_ ->]. exists []. rewrite app_nil_r. auto. }
  apply bind_ok in H as [[[[potential current] x_unit] y_unit] [w1 [H1 H]]].
  apply read_cv_data_effect in H1 as [L1 _].
  assert (Hnone : forall w2, ret tt w1 = Ok (tt, w2) ->
            exists new, ax_lines w2 = ax_lines w ++ new
              /\ Forall (fun l => false = false /\ file_colored i f l) new).
  { intros w2 E. apply ret_ok in E as [_ ->]. exists [].
    rewrite app_nil_r. auto. }
  destruct potential as [potential|]; [|apply Hnone; exact H].
  destruct current as [current|]; [|apply Hnone; exact H].
  apply bind_ok in H as [[] [w2 [H2 H]]]. apply ax_plot_ok in H2 as ->.
  destruct smooth.
  - apply plot_smoothed_effect in H as [xs [ys ->]]. cbn [drawn ax_lines].
    eexists. split; [rewrite L1, <- app_assoc; reflexivity|].
    constructor; [|constructor; [|constructor]]; split; try reflexivity.
    + split; [left; reflexivity | split; reflexivity].
    + split; [right; reflexivity | split; reflexivity].
  - apply ret_ok in H as [_ ->]. cbn [drawn ax_lines].
    eexists. split; [rewrite L1; reflexivity|].
    constructor; [|constructor]. split; [reflexivity|].
    split; [left; reflexivity | split; reflexivity].
Qed.

Lemma overlay_loop_raw_effect (st : widgets) (smooth : bool)
    (selected_files : option (list string)) (files : list UploadedFile)
    (items : list (nat * UploadedFile)) :
  (forall i f, In (i, f) items -> nth_error files i = Some f) ->
  forall w w',
    for_eachM (multi_file_body st smooth selected_files false) items w
    = Ok (tt, w') ->
    exists new,
      ax_lines w' = ax_lines w ++ new
      /\ Forall (overlay_file_line selected_files files) new.
Proof.
  induction items as [|[i f] items IH]; intros Hitems w w' H; cbn [for_eachM] in H.
  - apply ret_ok in H as [_ ->]. exists []. rewrite app_nil_r. auto.
  - apply bind_ok in H as [[] [w1 [H1 H]]].
    assert (Hf : nth_error files i = Some f) by (apply Hitems; left; reflexivity).
    apply multi_file_body_raw_effect in H1 as [new1 [L1 F1]].
    apply IH in H as [new2 [L2 F2]];
      [|intros i' f' Hin; apply Hitems; right; exact Hin].
    exists (new1 ++ new2). split; [rewrite L2, L1, app_assoc; reflexivity|].
    apply Forall_app. split; [|exact F2].
    eapply Forall_impl; [|exact F1].
    intros l [Hd Hl]. exists i, f. auto.
Qed.

(** X17.  Without auto-split, every line of the overlay is a line of a
    file of the list that was not deselected: labelled with the file's
    name without [.csv] followed by [(raw)] or [(smoothed)], drawn without
    a marker, and in the palette colour of the file's position in the
    whole list modulo 10, so that a file keeps its colour when other files
    are deselected and the raw and the smoothed line of a file share
    it. *)
Theorem overlay_file_colour (st : widgets) (files : list UploadedFile)
    (smooth : bool) (selected_files : option (list string))
    (w w' : world) (fig : figure) :
  plot_multi_cv st files smooth selected_files false w = Ok (fig, w') ->
  Forall (overlay_file_line selected_files files) (fig_lines fig).
Proof.
  intros H. apply plot_multi_cv_parts in H as [w2 [u [H2 [H3 [L _]]]]].
  apply overlay_loop_raw_effect with (files := files) in H2 as [new [L2 F2]];
    [|intros i f Hin; apply enumerate_nth; exact Hin].
  apply axis_units_effect in H3 as [_ [L3 _]].
  rewrite L, L3, L2. exact F2.
Qed.

Lemma overlay_file_colour_witness :
  exists fig w',
    plot_multi_cv select_all [millivolt_file; sweep_file] true
      (Some ["sweep.csv"%string]) false fresh = Ok (fig, w')
    /\ map line_color (fig_lines fig) = [Some (Tab10 1); Some (Tab10 1)]
    /\ Forall (overlay_file_line (Some ["sweep.csv"%string])
                 [millivolt_file; sweep_file]) (fig_lines fig).
Proof.
  eexists. eexists. split; [vm_compute; reflexivity|].
  split; [vm_compute; reflexivity|].
  refine (overlay_file_colour select_all [millivolt_file; sweep_file] true
            (Some ["sweep.csv"%string]) fresh _ _ _).
  vm_compute. reflexivity.
Defined.

(** One turn of the overlay loop without auto-split and smoothing, for a
    file that parses or is reported empty. *)
Lemma raw_file_body_runs (st : widgets)
    (selected_files : option (list string)) (i : nat) (f : UploadedFile)
    (w : world) :
  no_parse_error (next_read w f) ->
  multi_file_body st false selected_files false (i, f) w
  = Ok (tt,
        if deselected selected_files f then w
        else match next_read w f with
             | Ok df =>
                 match col_x df, col_y df with
                 | Some x, Some y =>
                     drawn (read_once w f) (raw_overlay_line i f x y)
                 | _, _ => read_once w f
                 end
             | Raise _ => warned (read_once w f) (empty_file_warning f)
             end).
Proof.
  intros Hp. destruct (next_read w f) as [df|e] eqn:Hf.
  - destruct (col_x df) as [x|] eqn:Hx; [destruct (col_y df) as [y|] eqn:Hy|].
    + unfold multi_file_body.
      destruct (deselected selected_files f); [reflexivity|].
      unfold bind at 1. rewrite (read_cv_data_frame f df w Hf), Hx, Hy.
      reflexivity.
    + apply (multi_file_body_missing _ _ _ _ _ _ df); auto.
    + apply (multi_file_body_missing _ _ _ _ _ _ df); auto.
  - destruct e; try contradiction.
    apply multi_file_body_empty. exact Hf.
Qed.

Lemma next_read_first (w : world) (f : UploadedFile) :
  ~ In (file_id f) (file_reads w) -> next_read w f = contents f 0.
Proof.
  intros H. unfold next_read, reads_of.
  apply (count_occ_not_In Nat.eq_dec) in H. rewrite H. reflexivity.
Qed.

Lemma raw_overlay_step (st : widgets) (selected_files : option (list string))
    (i : nat) (f : UploadedFile) (w : world) :
  no_parse_error (contents f 0) ->
  ~ In (file_id f) (file_reads w) ->
  exists w1,
    multi_file_body st false selected_files false (i, f) w = Ok (tt, w1)
    /\ ax_lines w1 = ax_lines w ++ raw_overlay_lines selected_files [(i, f)]
    /\ st_warnings w1
       = st_warnings w ++ raw_overlay_warnings selected_files [f]
    /\ file_reads w1
       = file_reads w ++ map file_id (loaded_files selected_files [f]).
Proof.
  intros Hp Hfresh. pose proof (next_read_first w f Hfresh) as Hn.
  eexists. split; [apply raw_file_body_runs; rewrite Hn; exact Hp|].
  rewrite Hn. unfold raw_overlay_lines, raw_overlay_warnings, loaded_files.
  cbn [flat_map filter fst snd]. rewrite !app_nil_r.
  destruct (deselected selected_files f); cbn [negb map].
  { rewrite !app_nil_r. repeat split; reflexivity. }
  destruct (contents f 0) as [df|e].
  - destruct (col_x df) as [x|]; [destruct (col_y df) as [y|]|];
      cbn [drawn read_once ax_lines file_reads st_warnings];
      rewrite ?app_nil_r; repeat split; reflexivity.
  - cbn [warned read_once ax_lines file_reads st_warnings].
    rewrite ?app_nil_r. repeat split; reflexivity.
Qed.

Lemma loaded_files_one (selected_files : option (list string))
    (f : UploadedFile) (id : nat) :
  In id (map file_id (loaded_files selected_files [f])) -> id = file_id f.
Proof.
  unfold loaded_files. cbn [filter].
  destruct (negb (deselected selected_files f)); cbn [map In]; intuition.
Qed.

Lemma raw_overlay_loop (st : widgets) (selected_files : option (list string)) :
  forall (items : list (nat * UploadedFile)) (w : world),
    (forall item, In item items -> no_parse_error (contents (snd item) 0)) ->
    NoDup (map file_id (map snd items)) ->
    (forall item, In item items -> ~ In (file_id (snd item)) (file_reads w)) ->
    exists w',
      for_eachM (multi_file_body st false selected_files false) items w
      = Ok (tt, w')
      /\ ax_lines w' = ax_lines w ++ raw_overlay_lines selected_files items
      /\ st_warnings w'
         = st_warnings w ++ raw_overlay_warnings selected_files (map snd items)
      /\ file_reads w'
         = file_reads w
           ++ map file_id (loaded_files selected_files (map snd items)).
Proof.
  induction items as [|[i f] items IH]; intros w Hp Hnd Hfresh.
  - exists w. split; [reflexivity|]. cbn. rewrite !app_nil_r.
    repeat split; reflexivity.
  - cbn [map snd] in Hnd. inversion Hnd as [|? ? Hnotin Hnd']; subst.
    destruct (raw_overlay_step st selected_files i f w)
      as [w1 [E1 [L1 [W1 R1]]]].
    { apply (Hp (i, f)). left. reflexivity. }
    { apply (Hfresh (i, f)). left. reflexivity. }
    destruct (IH w1) as [w' [E [L [W R]]]].
    { intros item Hin. apply Hp. right. exact Hin. }
    { exact Hnd'. }
    { intros item Hin Hread. rewrite R1 in Hread.
      apply in_app_or in Hread as [Hread|Hread].
      - apply (Hfresh item); [right; exact Hin | exact Hread].
      - apply loaded_files_one in Hread. apply Hnotin. rewrite <- Hread.
        apply in_map. apply in_map. exact Hin. }
    exists w'. cbn [for_eachM]. unfold bind. rewrite E1.
    split; [exact E|]. split; [|split].
    + rewrite L, L1, <- app_assoc. f_equal.
      unfold raw_overlay_lines. cbn [flat_map]. rewrite app_nil_r. reflexivity.
    + rewrite W, W1, <- app_assoc. f_equal.
      unfold raw_overlay_warnings. cbn [map snd flat_map].
      rewrite app_nil_r. reflexivity.
    + cbn [map snd].
      rewrite (loaded_files_cons selected_files f (map snd items)), map_app,
        app_assoc, <- R1.
      exact R.
Qed.

Lemma count_of_first_file (selected_files : option (list string))
    (f0 : UploadedFile) (rest : list UploadedFile) (reads : list nat) :
  ~ In (file_id f0) reads -> ~ In (file_id f0) (map file_id rest) ->
  count_occ Nat.eq_dec
    (reads ++ map file_id (loaded_files selected_files (f0 :: rest)))
    (file_id f0)
  = reread_number selected_files f0.
Proof.
  intros H1 H2.
  rewrite count_occ_app, loaded_files_cons, map_app, count_occ_app.
  rewrite (proj1 (count_occ_not_In Nat.eq_dec _ _) H1).
  rewrite (proj1 (count_occ_not_In Nat.eq_dec
                    (map file_id (loaded_files selected_files rest)) _)).
  - unfold loaded_files, reread_number. cbn [filter].
    destruct (deselected selected_files f0); cbn [negb map count_occ].
    + reflexivity.
    + destruct (Nat.eq_dec (file_id f0) (file_id f0)); [reflexivity | congruence].
  - intros Hin. apply H2. apply in_map_iff in Hin as [g [E Hg]].
    apply in_map_iff. exists g. split; [exact E|].
    unfold loaded_files in Hg. apply filter_In in Hg. tauto.
Qed.

(** The read of line 131, after a loop that has read each loaded file
    once. *)
Lemma axis_units_reread (selected_files : option (list string))
    (files : list UploadedFile) (w w2 : world) :
  NoDup (map file_id files) ->
  (forall f, In f files -> ~ In (file_id f) (file_reads w)) ->
  (forall f k, In f files -> no_parse_error (contents f k)) ->
  file_reads w2
  = file_reads w ++ map file_id (loaded_files selected_files files) ->
  exists w3,
    axis_units files w2 = Ok (reread_units selected_files files, w3)
    /\ ax_lines w3 = ax_lines w2
    /\ st_warnings w3 = st_warnings w2 ++ reread_warning selected_files files.
Proof.
  intros Hnd Hfresh Hp Hreads. destruct files as [|f0 rest].
  - exists w2. cbn. rewrite app_nil_r. repeat split; reflexivity.
  - assert (Hn : next_read w2 f0
                 = contents f0 (reread_number selected_files f0)).
    { unfold next_read, reads_of. rewrite Hreads. f_equal.
      cbn [map] in Hnd. inversion Hnd; subst.
      apply count_of_first_file; [|assumption].
      apply Hfresh. left. reflexivity. }
    pose proof (Hp f0 (reread_number selected_files f0) (or_introl eq_refl))
      as Hp0.
    unfold axis_units, reread_units, reread_warning, bind.
    destruct (contents f0 (reread_number selected_files f0)) as [df|e].
    + rewrite (read_cv_data_frame f0 df w2 Hn). cbn [units_of_outcome].
      destruct (col_x df); [destruct (col_y df)|];
        (eexists; split; [reflexivity|]);
        cbn [read_once ax_lines st_warnings]; rewrite app_nil_r;
        split; reflexivity.
    + destruct e; try contradiction.
      rewrite (read_cv_data_empty f0 w2 Hn). cbn [units_of_outcome].
      eexists. split; [reflexivity|].
      cbn [warned read_once ax_lines st_warnings]. split; reflexivity.
Qed.

(** The whole overlay without auto-split and smoothing: its lines, its
    warnings and its labels. *)
Lemma raw_overlay_figure (st : widgets) (files : list UploadedFile)
    (selected_files : option (list string)) (w : world) :
  NoDup (map file_id files) ->
  (forall f, In f files -> ~ In (file_id f) (file_reads w)) ->
  (forall f k, In f files -> no_parse_error (contents f k)) ->
  exists fig w',
    plot_multi_cv st files false selected_files false w = Ok (fig, w')
    /\ fig_lines fig = raw_overlay_lines selected_files (enumerate files)
    /\ st_warnings w'
       = st_warnings w ++ raw_overlay_warnings selected_files files
                      ++ reread_warning selected_files files
    /\ (xlabel fig, ylabel fig)
       = (let u := reread_units selected_files files in
          ("Potential (" ++ fst u ++ ")", "Current (" ++ snd u ++ ")"))%string.
Proof.
  intros Hnd Hfresh Hp.
  destruct (raw_overlay_loop st selected_files (enumerate files)
              {| st_warnings := st_warnings w; ax_lines := [];
                 file_reads := file_reads w |}) as [w2 [E2 [L2 [W2 R2]]]].
  - intros [i f] Hin. apply Hp. apply enumerate_nth in Hin.
    eapply nth_error_In; exact Hin.
  - change (enumerate files) with (enumerate_from 0 files).
    rewrite enumerate_from_snd. exact Hnd.
  - intros [i f] Hin. cbn [file_reads snd]. apply Hfresh.
    apply enumerate_nth in Hin. eapply nth_error_In; exact Hin.
  - change (enumerate files) with (enumerate_from 0 files) in W2, R2.
    rewrite enumerate_from_snd in W2, R2.
    cbn [st_warnings ax_lines file_reads app] in L2, W2, R2.
    destruct (axis_units_reread selected_files files w w2 Hnd Hfresh Hp R2)
      as [w3 [E3 [L3 W3]]].
    destruct (reread_units selected_files files) as [x_unit y_unit].
    unfold plot_multi_cv. unfold bind at 1. unfold subplots at 1.
    unfold bind at 1. rewrite E2. unfold bind at 1. rewrite E3.
    unfold finish_figure, bind, get_lines, ret.
    eexists. eexists. split; [reflexivity|].
    cbn [fig_lines xlabel ylabel fst snd].
    rewrite L3, L2, W3, W2, app_assoc. repeat split; reflexivity.
Qed.

(** X18.  Without auto-split and smoothing, for files that are different
    file objects, have not been read before, and each parse or are
    reported empty, the overlay returns a figure with exactly one line per
    file that is not deselected and has both columns, in the order of the
    list: the file's [x] and [y] columns as read, labelled with its name
    without [.csv] and [(raw)], in the palette colour of its position
    modulo 10.  Deselected files, empty files and files without an [x] or
    [y] column leave no line and stop nothing. *)
Theorem raw_overlay_draws_one_line_per_usable_file (st : widgets)
    (files : list UploadedFile) (selected_files : option (list string))
    (w : world) :
  NoDup (map file_id files) ->
  (forall f, In f files -> ~ In (file_id f) (file_reads w)) ->
  (forall f k, In f files -> no_parse_error (contents f k)) ->
  exists fig w',
    plot_multi_cv st files false selected_files false w = Ok (fig, w')
    /\ fig_lines fig = raw_overlay_lines selected_files (enumerate files).
Proof.
  intros Hnd Hfresh Hp.
  destruct (raw_overlay_figure st files selected_files w Hnd Hfresh Hp)
    as [fig [w' [E [L _]]]].
  exists fig, w'. split; [exact E | exact L].
Qed.

Lemma raw_overlay_draws_one_line_per_usable_file_witness :
  exists fig w',
    plot_multi_cv select_all [millivolt_file; empty_file; no_x_file; volt_file]
      false None false fresh
    = Ok (fig, w')
    /\ map label (fig_lines fig) = ["a (raw)"; "b (raw)"]%string
    /\ map line_color (fig_lines fig) = [Some (Tab10 0); Some (Tab10 3)].
Proof.
  assert (Hnd : NoDup (map file_id
                         [millivolt_file; empty_file; no_x_file; volt_file])).
  { vm_compute. repeat constructor; simpl; intuition discriminate. }
  assert (Hfresh : forall f,
             In f [millivolt_file; empty_file; no_x_file; volt_file] ->
             ~ In (file_id f) (file_reads fresh)).
  { intros f _ []. }
  assert (Hp : forall f k,
             In f [millivolt_file; empty_file; no_x_file; volt_file] ->
             no_parse_error (contents f k)).
  { intros f k Hin. simpl in Hin.
    destruct Hin as [<-|[<-|[<-|[<-|[]]]]]; exact I. }
  destruct (raw_overlay_draws_one_line_per_usable_file select_all
              [millivolt_file; empty_file; no_x_file; volt_file] None fresh
              Hnd Hfresh Hp) as [fig [w' [E L]]].
  exists fig, w'. split; [exact E|]. rewrite L.
  split; vm_compute; reflexivity.
Defined.

Lemma read_cv_data_parse_error (f : UploadedFile) (e : exn) (w : world) :
  next_read w f = Raise e -> e <> EmptyDataError ->
  read_cv_data f w = Raise e.
Proof.
  intros Hf He. unfold read_cv_data, bind, pd_read_csv. rewrite Hf.
  destruct e; try reflexivity. congruence.
Qed.

Lemma overlay_loop_parse_error (st : widgets)
    (selected_files : option (list string)) (f : UploadedFile) (e : exn)
    (after : list UploadedFile) :
  deselected selected_files f = false ->
  (forall k, contents f k = Raise e) -> e <> EmptyDataError ->
  forall (before : list UploadedFile) (a : nat) (w : world),
    (forall g k, In g before -> no_parse_error (contents g k)) ->
    for_eachM (multi_file_body st false selected_files false)
              (enumerate_from a (before ++ f :: after)) w
    = Raise e.
Proof.
  intros Hd Hf He. induction before as [|g before IH]; intros a w Hp;
    unfold enumerate_from; cbn [app length seq combine for_eachM];
    unfold bind at 1.
  - unfold multi_file_body. rewrite Hd. unfold bind at 1.
    rewrite (read_cv_data_parse_error f e w) by (auto; apply Hf).
    reflexivity.
  - rewrite raw_file_body_runs by (apply Hp; left; reflexivity).
    apply IH. intros g' k Hin. apply Hp. right. exact Hin.
Qed.



(* ================================================================= *)
(** * Missing columns and axis units in the whole overlay *)

Lemma raw_overlay_lines_app (selected_files : option (list string))
    (items1 items2 : list (nat * UploadedFile)) :
  raw_overlay_lines selected_files (items1 ++ items2)
  = raw_overlay_lines selected_files items1
    ++ raw_overlay_lines selected_files items2.
Proof. unfold raw_overlay_lines. apply flat_map_app. Qed.

Lemma raw_overlay_warnings_app (selected_files : option (list string))
    (files1 files2 : list UploadedFile) :
  raw_overlay_warnings selected_files (files1 ++ files2)
  = raw_overlay_warnings selected_files files1
    ++ raw_overlay_warnings selected_files files2.
Proof. unfold raw_overlay_warnings. apply flat_map_app. Qed.

(** A file without [x] or [y] among the files of an overlay without
    auto-split and smoothing: the figure has the lines of the files before
    it and of the files after it, these at their positions in the whole
    list; the warnings are those of the other files and of the read of
    line 131. *)
Lemma overlay_skips_missing_columns (st : widgets)
    (before : list UploadedFile) (f : UploadedFile) (after : list UploadedFile)
    (selected_files : option (list string)) (df : DataFrame) (w : world) :
  NoDup (map file_id (before ++ f :: after)) ->
  (forall g, In g (before ++ f :: after) -> ~ In (file_id g) (file_reads w)) ->
  (forall g k, In g (before ++ f :: after) -> no_parse_error (contents g k)) ->
  contents f 0 = Ok df -> col_x df = None \/ col_y df = None ->
  exists fig w',
    plot_multi_cv st (before ++ f :: after) false selected_files false w
    = Ok (fig, w')
    /\ fig_lines fig
       = raw_overlay_lines selected_files (enumerate before)
         ++ raw_overlay_lines selected_files
              (enumerate_from (S (length before)) after)
    /\ st_warnings w'
       = st_warnings w
         ++ raw_overlay_warnings selected_files before
         ++ raw_overlay_warnings selected_files after
         ++ reread_warning selected_files (before ++ f :: after).
Proof.
  intros Hnd Hfresh Hp Hc Hmiss.
  destruct (raw_overlay_figure st (before ++ f :: after) selected_files w
              Hnd Hfresh Hp) as [fig [w' [E [L [W _]]]]].
  exists fig, w'. split; [exact E|]. split.
  - rewrite L. change (enumerate (before ++ f :: after))
      with (enumerate_from 0 (before ++ f :: after)).
    rewrite enumerate_from_app, raw_overlay_lines_app. f_equal.
    unfold enumerate_from, raw_overlay_lines.
    cbn [length seq combine flat_map fst snd Nat.add]. rewrite Hc.
    assert (Hnone : match col_x df, col_y df with
                    | Some x, Some y =>
                        [raw_overlay_line (length before) f x y]
                    | _, _ => []
                    end = []).
    { destruct Hmiss as [-> | ->]; [reflexivity|].
      destruct (col_x df); reflexivity. }
    rewrite Hnone. destruct (deselected selected_files f); reflexivity.
  - rewrite W, raw_overlay_warnings_app, <- app_assoc.
    f_equal. f_equal. f_equal.
    unfold raw_overlay_warnings at 1. cbn [flat_map]. rewrite Hc.
    destruct (deselected selected_files f); reflexivity.
Qed.

(** C6 (the code departs from it when the offending file is the first of
    the list).  A file whose frame lacks the [x] or the [y] column makes
    [plot_single_cv] raise [ValueError], whatever its options.  In the
    overlay the turn of the loop for it draws nothing and warns of
    nothing, and the whole overlay (shown without auto-split and
    smoothing) returns a figure with exactly the lines of the other
    files, at their positions in the whole list.  The skip is silent as
    long as line 131 does not read the file again: when the file is the
    first of the list, is loaded by the loop, and is a stream its first
    read has used up, the overlay ends with the warning that this file is
    empty. *)
Theorem missing_columns_fatal_in_single_skipped_in_overlay :
  (forall st f df label smooth mark_peaks auto_split w,
     next_read w f = Ok df -> col_x df = None \/ col_y df = None ->
     plot_single_cv st f label smooth mark_peaks auto_split w
     = Raise missing_columns)
  /\ (forall st smooth selected_files auto_split i f df w,
        next_read w f = Ok df -> col_x df = None \/ col_y df = None ->
        multi_file_body st smooth selected_files auto_split (i, f) w
        = Ok (tt, if deselected selected_files f then w else read_once w f))
  /\ (forall st before f after selected_files df w,
        NoDup (map file_id (before ++ f :: after)) ->
        (forall g, In g (before ++ f :: after) ->
                   ~ In (file_id g) (file_reads w)) ->
        (forall g k, In g (before ++ f :: after) ->
                     no_parse_error (contents g k)) ->
        contents f 0 = Ok df -> col_x df = None \/ col_y df = None ->
        exists fig w',
          plot_multi_cv st (before ++ f :: after) false selected_files false w
          = Ok (fig, w')
          /\ fig_lines fig
             = raw_overlay_lines selected_files (enumerate before)
               ++ raw_overlay_lines selected_files
                    (enumerate_from (S (length before)) after)
          /\ st_warnings w'
             = st_warnings w
               ++ raw_overlay_warnings selected_files before
               ++ raw_overlay_warnings selected_files after
               ++ reread_warning selected_files (before ++ f :: after))
  /\ (forall st f after selected_files df w,
        NoDup (map file_id (f :: after)) ->
        (forall g, In g (f :: after) -> ~ In (file_id g) (file_reads w)) ->
        (forall g k, In g (f :: after) -> no_parse_error (contents g k)) ->
        contents f 0 = Ok df -> col_x df = None \/ col_y df = None ->
        used_up_by_first_read f -> deselected selected_files f = false ->
        exists fig w',
          plot_multi_cv st (f :: after) false selected_files false w
          = Ok (fig, w')
          /\ fig_lines fig
             = raw_overlay_lines selected_files (enumerate_from 1 after)
          /\ st_warnings w'
             = st_warnings w
               ++ raw_overlay_warnings selected_files after
               ++ [empty_file_warning f]).
Proof.
  split; [|split; [|split]].
  - intros st f df label smooth mark_peaks auto_split w Hf Hmiss.
    eapply plot_single_cv_missing.
    + apply read_cv_data_frame. exact Hf.
    + exact Hmiss.
  - intros st smooth selected_files auto_split i f df w Hf Hmiss.
    eapply multi_file_body_missing; eauto.
  - intros st before f after selected_files df w.
    apply overlay_skips_missing_columns.
  - intros st f after selected_files df w Hnd Hfresh Hp Hc Hmiss Hused Hd.
    destruct (overlay_skips_missing_columns st [] f after selected_files df w
                Hnd Hfresh Hp Hc Hmiss) as [fig [w' [E [L W]]]].
    exists fig, w'. split; [exact E|]. split; [exact L|].
    rewrite W. cbn [raw_overlay_warnings flat_map app].
    unfold reread_warning, reread_number. rewrite Hd, (Hused 0). reflexivity.
Qed.

Lemma missing_columns_fatal_in_single_skipped_in_overlay_witness :
  plot_single_cv select_all no_x_stream None false false false fresh
  = Raise missing_columns
  /\ (exists fig w',
        plot_multi_cv select_all [volt_stream; no_x_stream] false None false
          fresh = Ok (fig, w')
        /\ map label (fig_lines fig) = ["b (raw)"%string]
        /\ st_warnings w' = [empty_file_warning volt_stream])
  /\ (exists fig w',
        plot_multi_cv select_all [no_x_stream; volt_stream] false None false
          fresh = Ok (fig, w')
        /\ map label (fig_lines fig) = ["b (raw)"%string]
        /\ map line_color (fig_lines fig) = [Some (Tab10 1)]
        /\ st_warnings w' = [empty_file_warning no_x_stream]).
Proof.
  destruct missing_columns_fatal_in_single_skipped_in_overlay
    as [Hsingle [_ [Hany Hfirst]]].
  assert (Hused : used_up_by_first_read no_x_stream).
  { intros k. reflexivity. }
  split; [|split].
  - apply (Hsingle select_all no_x_stream frame_without_x).
    + reflexivity.
    + left. reflexivity.
  - assert (Hnd : NoDup (map file_id ([volt_stream] ++ no_x_stream :: []))).
    { vm_compute. repeat constructor; simpl; intuition discriminate. }
    assert (Hfresh : forall g, In g ([volt_stream] ++ no_x_stream :: []) ->
                               ~ In (file_id g) (file_reads fresh)).
    { intros g _ []. }
    assert (Hp : forall g k, In g ([volt_stream] ++ no_x_stream :: []) ->
                             no_parse_error (contents g k)).
    { intros g k [<-|[<-|[]]]; destruct k; exact I. }
    destruct (Hany select_all [volt_stream] no_x_stream [] None
                frame_without_x fresh Hnd Hfresh Hp eq_refl
                (or_introl eq_refl))
      as [fig [w' [E [L W]]]].
    exists fig, w'. split; [exact E|]. rewrite L, W.
    split; vm_compute; reflexivity.
  - assert (Hnd : NoDup (map file_id [no_x_stream; volt_stream])).
    { vm_compute. repeat constructor; simpl; intuition discriminate. }
    assert (Hfresh : forall g, In g [no_x_stream; volt_stream] ->
                               ~ In (file_id g) (file_reads fresh)).
    { intros g _ []. }
    assert (Hp : forall g k, In g [no_x_stream; volt_stream] ->
                             no_parse_error (contents g k)).
    { intros g k [<-|[<-|[]]]; destruct k; exact I. }
    destruct (Hfirst select_all no_x_stream [volt_stream] None
                frame_without_x fresh Hnd Hfresh Hp eq_refl
                (or_introl eq_refl) Hused eq_refl)
      as [fig [w' [E [L W]]]].
    exists fig, w'. split; [exact E|]. rewrite L, W.
    repeat split; vm_compute; reflexivity.
Defined.

Lemma overlay_reread_of_drawn_stream (st : widgets) (f0 : UploadedFile)
    (rest : list UploadedFile) (smooth : bool)
    (selected_files : option (list string)) (auto_split : bool)
    (w w' : world) (fig : figure) :
  used_up_by_first_read f0 -> deselected selected_files f0 = false ->
  plot_multi_cv st (f0 :: rest) smooth selected_files auto_split w
  = Ok (fig, w') ->
  xlabel fig = "Potential (V)"%string
  /\ ylabel fig = "Current (A)"%string
  /\ exists ws, st_warnings w' = ws ++ [empty_file_warning f0].
Proof.
  intros Hused Hd H.
  apply plot_multi_cv_parts in H as [w2 [u [H2 [H3 [_ Hl]]]]].
  apply overlay_loop_effect with (files := f0 :: rest) in H2 as [_ [R2 _]];
    [|intros i f Hin; apply enumerate_nth; exact Hin].
  cbn [file_reads] in R2.
  change (enumerate (f0 :: rest)) with (enumerate_from 0 (f0 :: rest)) in R2.
  rewrite enumerate_from_snd in R2.
  assert (Hn : next_read w2 f0 = Raise EmptyDataError).
  { unfold next_read, reads_of. rewrite R2, count_occ_app.
    unfold loaded_files. cbn [filter]. rewrite Hd. cbn [negb map].
    rewrite count_occ_cons_eq by reflexivity.
    rewrite Nat.add_succ_r. apply Hused. }
  unfold axis_units, bind in H3. rewrite (read_cv_data_empty f0 w2 Hn) in H3.
  apply ret_ok in H3 as [-> ->].
  inversion Hl as [[Hx Hy]].
  split; [reflexivity|]. split; [reflexivity|].
  eexists. reflexivity.
Qed.

Lemma overlay_units_of_passed_over_file (st : widgets) (f0 : UploadedFile)
    (rest : list UploadedFile) (smooth : bool)
    (selected_files : option (list string)) (auto_split : bool)
    (w w' : world) (fig : figure) :
  deselected selected_files f0 = true ->
  ~ In (file_id f0) (file_reads w ++ map file_id rest) ->
  plot_multi_cv st (f0 :: rest) smooth selected_files auto_split w
  = Ok (fig, w') ->
  (xlabel fig, ylabel fig)
  = (let u := units_of_outcome (contents f0 0) in
     ("Potential (" ++ fst u ++ ")", "Current (" ++ snd u ++ ")"))%string.
Proof.
  intros Hd Hfresh H. apply plot_multi_cv_effect in H as [Hu _].
  rewrite Hu. unfold axis_units_after.
  rewrite count_of_first_file.
  - unfold reread_number. rewrite Hd. reflexivity.
  - intros Hin. apply Hfresh. apply in_or_app. left. exact Hin.
  - intros Hin. apply Hfresh. apply in_or_app. right. exact Hin.
Qed.

(** C9 (the code departs from it).  The overlay takes the units of its
    axis labels from a read of the first file of the list at line 131,
    after the loop.  The file objects are streams that a read uses up, so
    when the first file has been loaded and drawn by the loop this second
    read finds nothing: the labels are ["V"] and ["A"] whatever the units
    of the file, and the overlay ends with the warning that the file is
    empty.  The labels carry the units of the first file only when the
    loop has passed it over as deselected, that is when the file is not
    drawn.  Without auto-split and smoothing the figure of a first file
    with both columns has that file's line first and the labels in ["V"]
    and ["A"]. *)
Theorem overlay_units_lost_when_first_file_is_read_again :
  (forall st f0 rest smooth selected_files auto_split w fig w',
     used_up_by_first_read f0 -> deselected selected_files f0 = false ->
     plot_multi_cv st (f0 :: rest) smooth selected_files auto_split w
     = Ok (fig, w') ->
     xlabel fig = "Potential (V)"%string
     /\ ylabel fig = "Current (A)"%string
     /\ exists ws, st_warnings w' = ws ++ [empty_file_warning f0])
  /\ (forall st f0 rest smooth selected_files auto_split w fig w',
        deselected selected_files f0 = true ->
        ~ In (file_id f0) (file_reads w ++ map file_id rest) ->
        plot_multi_cv st (f0 :: rest) smooth selected_files auto_split w
        = Ok (fig, w') ->
        (xlabel fig, ylabel fig)
        = (let u := units_of_outcome (contents f0 0) in
           ("Potential (" ++ fst u ++ ")", "Current (" ++ snd u ++ ")"))%string)
  /\ (forall st f0 rest selected_files df x y w,
        NoDup (map file_id (f0 :: rest)) ->
        (forall g, In g (f0 :: rest) -> ~ In (file_id g) (file_reads w)) ->
        (forall g k, In g (f0 :: rest) -> no_parse_error (contents g k)) ->
        used_up_by_first_read f0 -> deselected selected_files f0 = false ->
        contents f0 0 = Ok df -> col_x df = Some x -> col_y df = Some y ->
        exists fig w',
          plot_multi_cv st (f0 :: rest) false selected_files false w
          = Ok (fig, w')
          /\ fig_lines fig
             = raw_overlay_line 0 f0 x y
               :: raw_overlay_lines selected_files (enumerate_from 1 rest)
          /\ xlabel fig = "Potential (V)"%string
          /\ ylabel fig = "Current (A)"%string
          /\ st_warnings w'
             = st_warnings w
               ++ raw_overlay_warnings selected_files rest
               ++ [empty_file_warning f0]).
Proof.
  split; [|split].
  - intros st f0 rest smooth selected_files auto_split w fig w'.
    apply overlay_reread_of_drawn_stream.
  - intros st f0 rest smooth selected_files auto_split w fig w'.
    apply overlay_units_of_passed_over_file.
  - intros st f0 rest selected_files df x y w Hnd Hfresh Hp Hused Hd Hc Hx Hy.
    destruct (raw_overlay_figure st (f0 :: rest) selected_files w
                Hnd Hfresh Hp) as [fig [w' [E [L [W _]]]]].
    exists fig, w'. split; [exact E|].
    destruct (overlay_reread_of_drawn_stream _ _ _ _ _ _ _ _ _ Hused Hd E)
      as [Lx [Ly _]].
    split; [|split; [exact Lx|split; [exact Ly|]]].
    + rewrite L. unfold enumerate, raw_overlay_lines.
      cbn [length seq combine flat_map fst snd].
      rewrite Hd, Hc, Hx, Hy. reflexivity.
    + rewrite W. unfold raw_overlay_warnings at 1. cbn [flat_map].
      rewrite Hd, Hc. cbn [app].
      unfold reread_warning, reread_number. rewrite Hd, (Hused 0).
      reflexivity.
Qed.

Lemma overlay_units_lost_when_first_file_is_read_again_witness :
  (exists r w1,
     read_cv_data millivolt_stream fresh = Ok (r, w1)
     /\ snd (fst r) = "mV"%string /\ snd r = "uA"%string)
  /\ (exists fig w',
        plot_multi_cv select_all [millivolt_stream; volt_stream] false None
          false fresh = Ok (fig, w')
        /\ map label (fig_lines fig) = ["a (raw)"; "b (raw)"]%string
        /\ xlabel fig = "Potential (V)"%string
        /\ ylabel fig = "Current (A)"%string
        /\ st_warnings w' = [empty_file_warning millivolt_stream])
  /\ (exists fig w',
        plot_multi_cv select_all [millivolt_stream; volt_stream] false
          (Some ["b.csv"%string]) false fresh = Ok (fig, w')
        /\ map label (fig_lines fig) = ["b (raw)"%string]
        /\ xlabel fig = "Potential (mV)"%string
        /\ ylabel fig = "Current (uA)"%string).
Proof.
  destruct overlay_units_lost_when_first_file_is_read_again
    as [_ [Hpassed Hraw]].
  split; [|split].
  - eexists. eexists. split; [vm_compute; reflexivity|].
    split; reflexivity.
  - assert (Hnd : NoDup (map file_id [millivolt_stream; volt_stream])).
    { vm_compute. repeat constructor; simpl; intuition discriminate. }
    assert (Hfresh : forall g, In g [millivolt_stream; volt_stream] ->
                               ~ In (file_id g) (file_reads fresh)).
    { intros g _ []. }
    assert (Hp : forall g k, In g [millivolt_stream; volt_stream] ->
                             no_parse_error (contents g k)).
    { intros g k [<-|[<-|[]]]; destruct k; exact I. }
    assert (Hused : used_up_by_first_read millivolt_stream).
    { intros k. reflexivity. }
    destruct (Hraw select_all millivolt_stream [volt_stream] None
                millivolt_frame [0; 1; 2]%float [1; 5; -3]%float fresh
                Hnd Hfresh Hp Hused eq_refl eq_refl eq_refl eq_refl)
      as [fig [w' [E [L [Lx [Ly W]]]]]].
    exists fig, w'. split; [exact E|]. rewrite L, W.
    split; [vm_compute; reflexivity|].
    split; [exact Lx|]. split; [exact Ly|]. vm_compute. reflexivity.
  - destruct (plot_multi_cv select_all [millivolt_stream; volt_stream] false
                (Some ["b.csv"%string]) false fresh)
      as [[fig w']|e] eqn:E; [|vm_compute in E; discriminate].
    assert (Hnotin : ~ In (file_id millivolt_stream)
                       (file_reads fresh ++ map file_id [volt_stream])).
    { vm_compute. intuition discriminate. }
    pose proof (Hpassed select_all millivolt_stream [volt_stream] false
                  (Some ["b.csv"%string]) false fresh fig w' eq_refl
                  Hnotin E) as Hl.
    exists fig, w'. split; [reflexivity|].
    split; [vm_compute in E; injection E as <- _; reflexivity|].
    change ((xlabel fig, ylabel fig)
            = ("Potential (mV)"%string, "Current (uA)"%string)) in Hl.
    injection Hl as Lx Ly. split; [exact Lx | exact Ly].
Defined.
